(** * QA.Stone parser: a shallow embedding of [QAStoneParser]

    The class under study detects, parses and builds QA.Stone text
    envelopes and decides how much of an envelope a consumer should load.
    JavaScript strings are sequences of UTF-16 code units, modelled here as
    lists of [N]; the two caches of the class are finite maps threaded
    through a small state-and-exception monad. *)

From Stdlib Require Import ZArith NArith List String Ascii Lia Bool.
From Stdlib Require Import PrimFloat FloatOps SpecFloat Uint63.
From stdpp Require Import gmap strings list.

Local Open Scope N_scope.

(** ** JavaScript strings *)

Module JS.

Abbreviation jsstring := (list N).

(** Code units of an ASCII literal. *)
Fixpoint str (s : string) : jsstring :=
  match s with
  | EmptyString => []
  | String a s' => N_of_ascii a :: str s'
  end.

Definition LF : N := 10.

(** [WhiteSpace] and [LineTerminator] code points: what [trim] strips and
    what the regular expression class [\s] matches. *)
Definition is_ws (c : N) : bool :=
  ((9 <=? c) && (c <=? 13)) || (c =? 32) || (c =? 160) || (c =? 5760)
  || ((8192 <=? c) && (c <=? 8202)) || (c =? 8232) || (c =? 8233)
  || (c =? 8239) || (c =? 8287) || (c =? 12288) || (c =? 65279).

Fixpoint trimStart (s : jsstring) : jsstring :=
  match s with
  | [] => []
  | c :: s' => if is_ws c then trimStart s' else s
  end.

Fixpoint trimEnd (s : jsstring) : jsstring :=
  match s with
  | [] => []
  | c :: s' =>
      match trimEnd s' with
      | [] => if is_ws c then [] else [c]
      | r => c :: r
      end
  end.

Definition trim (s : jsstring) : jsstring := trimEnd (trimStart s).

Fixpoint str_eqb (a b : jsstring) : bool :=
  match a, b with
  | [], [] => true
  | x :: a', y :: b' => (x =? y) && str_eqb a' b'
  | _, _ => false
  end.

Fixpoint startsWith (s p : jsstring) {struct p} : bool :=
  match p, s with
  | [], _ => true
  | y :: p', x :: s' => (x =? y) && startsWith s' p'
  | _ :: _, [] => false
  end.

(** [s.split(d)] for a one-unit separator [d]: never empty, the empty
    string gives one empty piece. *)
Fixpoint split_on (d : N) (s : jsstring) : list jsstring :=
  match s with
  | [] => [[]]
  | c :: s' =>
      if c =? d then [] :: split_on d s'
      else match split_on d s' with
           | l :: ls => (c :: l) :: ls
           | [] => [[c]]
           end
  end.
Definition split_lines : jsstring -> list jsstring := split_on LF.

(** [a.join(sep)]. *)
Fixpoint join (sep : jsstring) (l : list jsstring) : jsstring :=
  match l with
  | [] => []
  | [x] => x
  | x :: l' => x ++ sep ++ join sep l'
  end.

(** [s.indexOf(c)] for a one-unit needle: -1 when absent. *)
Fixpoint indexOf (c : N) (s : jsstring) : Z :=
  match s with
  | [] => (-1)%Z
  | x :: s' =>
      if x =? c then 0%Z
      else let r := indexOf c s' in if (r <? 0)%Z then (-1)%Z else (r + 1)%Z
  end.

(** [s.substring(a, b)] and [s.substring(a)] for non-negative bounds. *)
Definition substring (a b : nat) (s : jsstring) : jsstring :=
  take (Nat.max a b - Nat.min a b) (drop (Nat.min a b) s).
Definition substringFrom (a : nat) (s : jsstring) : jsstring := drop a s.

(** Splitting on a regular expression [[set]+]: the separators are the
    maximal runs of code units of the set.  A leading or trailing run
    leaves an empty first or last piece, as [String.prototype.split]
    does. *)
Fixpoint split_runs_go (sep : N -> bool) (inrun : bool) (acc : jsstring)
    (s : jsstring) : list jsstring :=
  match s with
  | [] => [rev acc]
  | c :: s' =>
      if sep c then
        if inrun then split_runs_go sep true [] s'
        else rev acc :: split_runs_go sep true [] s'
      else split_runs_go sep false (c :: acc) s'
  end.
Definition split_runs (sep : N -> bool) (s : jsstring) : list jsstring :=
  split_runs_go sep false [] s.

(** Splitting on [/\n\n+/]: a separator is a run of two or more line
    feeds; a single line feed stays inside its piece. *)
Fixpoint split_paras_go (inrun : bool) (acc : jsstring) (s : jsstring)
    : list jsstring :=
  match s with
  | [] => [rev acc]
  | c :: s' =>
      if inrun && (c =? LF) then split_paras_go true [] s'
      else
        match s' with
        | d :: s'' =>
            if (c =? LF) && (d =? LF)
            then rev acc :: split_paras_go true [] s''
            else split_paras_go false (c :: acc) s'
        | [] => [rev (c :: acc)]
        end
  end.
Definition split_paras (s : jsstring) : list jsstring :=
  split_paras_go false [] s.

(** [toLowerCase] on ASCII letters; code units outside ASCII are kept as
    they are.  Its only use is the keyword test behind the fortune's
    category, which is evaluated below on ASCII text; the general
    statements hold whatever the category is. *)
Definition lower_unit (c : N) : N :=
  if (65 <=? c) && (c <=? 90) then c + 32 else c.
Definition toLowerCase (s : jsstring) : jsstring := map lower_unit s.

(** Word characters of [\w] and [\b]. *)
Definition is_word (c : N) : bool :=
  ((48 <=? c) && (c <=? 57)) || ((65 <=? c) && (c <=? 90))
  || ((97 <=? c) && (c <=? 122)) || (c =? 95).

(** Digits of a non-negative integer in a base up to 16, lower case, as
    [toString(base)] and template literals print them. *)
Definition digitUnit (d : Z) : N :=
  if (d <? 10)%Z then 48 + Z.to_N d else 87 + Z.to_N d.
Fixpoint toRadix_go (base : Z) (fuel : nat) (n : Z) (acc : jsstring)
    : jsstring :=
  match fuel with
  | O => acc
  | S fuel' =>
      let acc' := digitUnit (n mod base) :: acc in
      if (n / base =? 0)%Z then acc'
      else toRadix_go base fuel' (n / base) acc'
  end.
Definition toRadix (base : Z) (n : Z) : jsstring :=
  toRadix_go base (S (Z.to_nat (Z.log2 n))) n [].

(** Decimal rendering of an integer. *)
Definition of_Z (z : Z) : jsstring :=
  if (z <? 0)%Z then 45 :: toRadix 10 (- z) else toRadix 10 z.

(** [parseInt(s, 10)]: leading white space, an optional sign, then the
    longest run of decimal digits; [None] stands for [NaN].  The value is
    kept exact: a double rounds it beyond 2^53, which the one comparison
    made on it, with 4, cannot see. *)
Definition is_digit (c : N) : bool := (48 <=? c) && (c <=? 57).
Fixpoint digits_go (acc : Z) (s : jsstring) : Z :=
  match s with
  | [] => acc
  | c :: s' =>
      if is_digit c then digits_go (acc * 10 + Z.of_N (c - 48))%Z s' else acc
  end.
Definition parse_digits (s : jsstring) : option Z :=
  match s with
  | c :: _ => if is_digit c then Some (digits_go 0%Z s) else None
  | [] => None
  end.
Definition parseInt (s : jsstring) : option Z :=
  match trimStart s with
  | 45 :: r => option_map Z.opp (parse_digits r)
  | 43 :: r => parse_digits r
  | r => parse_digits r
  end.

End JS.
Import JS.

(** ** Values, completions and the parser's state *)

(** The values a caller may pass where a string is expected. *)
Inductive jsval :=
| JUndefined
| JNull
| JBool (b : bool)
| JNum (z : Z)
| JStr (s : jsstring)
| JObj.

(** The header object that [parseHeader] returns. *)
Record Header := mkHeader {
  border_hash : option jsstring;
  glow_channel : option jsstring;
  stone_type : option jsstring;
  created : option jsstring;
  source_agent : option jsstring;
  lod_count : Z;
  fortune : option jsstring;
  raw_header : jsstring
}.

(** [this.lodCache] and [this.headerCache]. *)
Record ParserState := mkState {
  lodCache : gmap (list N) (list N);
  headerCache : gmap (list N) Header
}.

Definition newParser : ParserState := mkState ∅ ∅.

Inductive completion (A : Type) :=
| Normal (a : A)
| Throw (msg : jsstring).
Arguments Normal {A} a.
Arguments Throw {A} msg.

(** A method of the parser: it runs on the caches and either returns or
    throws, leaving the caches as they are at that point. *)
Definition M (A : Type) : Type := ParserState -> completion A * ParserState.

Definition ret {A} (a : A) : M A := fun st => (Normal a, st).
Definition throw {A} (msg : jsstring) : M A := fun st => (Throw msg, st).
Definition bind {A B} (m : M A) (k : A -> M B) : M B :=
  fun st =>
    match m st with
    | (Normal a, st') => k a st'
    | (Throw e, st') => (Throw e, st')
    end.

Notation "x <- m ;; k" := (bind m (fun x => k))
  (at level 100, m at next level, right associativity).

(** ** The parser *)

Definition OPEN : jsstring := 167 :: str "QASTONE" ++ [167].
Definition CLOSE : jsstring := 167 :: str "/QASTONE" ++ [167].
Definition SEP : jsstring := [9472].

(** [!content || typeof content !== 'string'] rejects everything but a
    non-empty string. *)
Definition isQAStone (content : jsval) : bool :=
  match content with
  | JStr s =>
      match s with
      | [] => false
      | _ => startsWith (trim s) OPEN
      end
  | _ => false
  end.

Definition emptyHeader : Header :=
  mkHeader None None None None None 0%Z None [].

(** The [switch (key)] of [parseHeader]. *)
Definition setField (h : Header) (key value : jsstring) : Header :=
  if str_eqb key (str "border_hash") then
    mkHeader (Some value) (glow_channel h) (stone_type h) (created h)
      (source_agent h) (lod_count h) (fortune h) (raw_header h)
  else if str_eqb key (str "glow_channel") then
    mkHeader (border_hash h) (Some value) (stone_type h) (created h)
      (source_agent h) (lod_count h) (fortune h) (raw_header h)
  else if str_eqb key (str "stone_type") then
    mkHeader (border_hash h) (glow_channel h) (Some value) (created h)
      (source_agent h) (lod_count h) (fortune h) (raw_header h)
  else if str_eqb key (str "created") then
    mkHeader (border_hash h) (glow_channel h) (stone_type h) (Some value)
      (source_agent h) (lod_count h) (fortune h) (raw_header h)
  else if str_eqb key (str "source_agent") then
    mkHeader (border_hash h) (glow_channel h) (stone_type h) (created h)
      (Some value) (lod_count h) (fortune h) (raw_header h)
  else if str_eqb key (str "lod_count") then
    mkHeader (border_hash h) (glow_channel h) (stone_type h) (created h)
      (source_agent h) (default 0%Z (parseInt value)) (fortune h)
      (raw_header h)
  else if str_eqb key (str "fortune") then
    mkHeader (border_hash h) (glow_channel h) (stone_type h) (created h)
      (source_agent h) (lod_count h) (Some value) (raw_header h)
  else h.

(** One iteration of the header loop on an already trimmed line. *)
Definition headerLine (h : Header) (line : jsstring) : Header :=
  let colonIndex := indexOf 58 line in
  if (colonIndex >? 0)%Z then
    setField h (trim (substring 0 (Z.to_nat colonIndex) line))
      (trim (substringFrom (Z.to_nat colonIndex + 1) line))
  else h.

(** The loop [for (i = 0; i < lines.length && i < 15; i++)], run on the
    first fifteen lines; the second component is [headerEndIndex], which
    stays 0 when no separator line is met. *)
Fixpoint scanHeader (ls : list jsstring) (i : nat) (h : Header)
    : Header * nat :=
  match ls with
  | [] => (h, 0%nat)
  | l :: ls' =>
      let line := trim l in
      if str_eqb line SEP then (h, i)
      else scanHeader ls' (S i) (headerLine h line)
  end.

Definition parseHeaderFresh (s : jsstring) : Header :=
  let lines := split_lines s in
  let '(h, headerEndIndex) := scanHeader (take 15 lines) 0 emptyHeader in
  mkHeader (border_hash h) (glow_channel h) (stone_type h) (created h)
    (source_agent h) (lod_count h) (fortune h)
    (join [LF] (take (headerEndIndex + 1) lines)).

Definition notAStone : jsstring := str "Not a valid QA.Stone format".

Definition parseHeader (content : jsval) : M Header :=
  fun st =>
    if negb (isQAStone content) then (Throw notAStone, st)
    else
      match content with
      | JStr s =>
          let cacheKey := substring 0 100 s in
          match headerCache st !! cacheKey with
          | Some h => (Normal h, st)
          | None =>
              let header := parseHeaderFresh s in
              (Normal header,
               mkState (lodCache st) (<[cacheKey := header]> (headerCache st)))
          end
      | _ => (Throw notAStone, st)
      end.

Record Fortune := mkFortune {
  f_channel : option jsstring;
  f_category : option jsstring;
  f_complexity : option jsstring
}.

(** [parts[i] || null]. *)
Definition partOrNull (parts : list jsstring) (i : nat) : option jsstring :=
  match parts !! i with
  | Some [] => None
  | Some p => Some p
  | None => None
  end.

Definition parseFortune (fortune : option jsstring) : Fortune :=
  match fortune with
  | None | Some [] => mkFortune None None None
  | Some f =>
      let parts := split_on 58 f in
      mkFortune (partOrNull parts 0) (partOrNull parts 1) (partOrNull parts 2)
  end.

(** The line loop of [extractLOD]; returns [lodContent] at the [break] or
    at the end of the lines. *)
Fixpoint scanLOD (lodMarker : jsstring) (ls : list jsstring)
    (lodContent : jsstring) (inLod : bool) : jsstring :=
  match ls with
  | [] => lodContent
  | line :: ls' =>
      if startsWith line lodMarker then
        scanLOD lodMarker ls'
          (trim (substringFrom (length lodMarker) line)) true
      else if inLod then
        if str_eqb (trim line) SEP || startsWith line (str "LOD-")
           || str_eqb line CLOSE
        then lodContent
        else scanLOD lodMarker ls' (lodContent ++ [LF] ++ line) true
      else scanLOD lodMarker ls' lodContent inLod
  end.

Definition extractLODFresh (s : jsstring) (level : Z) : jsstring :=
  trim (scanLOD (str "LOD-" ++ of_Z level ++ [58]) (split_lines s) [] false).

Definition lodKey (s : jsstring) (level : Z) : jsstring :=
  substring 0 50 s ++ [58] ++ of_Z level.

(** [extractLOD] on a string. *)
Definition extractLODStr (s : jsstring) (level : Z) : M jsstring :=
  fun st =>
    if negb (isQAStone (JStr s)) then (Normal s, st)
    else
      let cacheKey := lodKey s level in
      match lodCache st !! cacheKey with
      | Some r => (Normal r, st)
      | None =>
          let r := extractLODFresh s level in
          (Normal r, mkState (<[cacheKey := r]> (lodCache st)) (headerCache st))
      end.

(** [extractLOD]: anything that is not a string fails [isQAStone] and is
    handed back as it came. *)
Definition extractLOD (content : jsval) (level : Z) : M jsval :=
  match content with
  | JStr s => r <- extractLODStr s level ;; ret (JStr r)
  | v => ret v
  end.

(** The levels [0 .. maxLevel] of the counting loops. *)
Definition levelsUpTo (maxLevel : Z) : list Z :=
  map Z.of_nat (seq 0 (Z.to_nat (maxLevel + 1))).

(** [extractLODsUpTo] on a string: the result object as its properties in
    order, which for integer keys is ascending. *)
Fixpoint extractLODsLoop (s : jsstring) (levels : list Z)
    : M (list (Z * jsstring)) :=
  match levels with
  | [] => ret []
  | level :: rest =>
      lodContent <- extractLODStr s level ;;
      more <- extractLODsLoop s rest ;;
      ret (match lodContent with
           | [] => more
           | _ => (level, lodContent) :: more
           end)
  end.
Definition extractLODsUpTo (s : jsstring) (maxLevel : Z)
    : M (list (Z * jsstring)) :=
  extractLODsLoop s (levelsUpTo maxLevel).

(** ** Assessing the required level *)

(** The value of the local variable [level]: a number, or what arithmetic
    makes of a missing [defaultLod]. *)
Inductive lodLevel :=
| Lvl (n : Z)
| LvlUndefined
| LvlNaN.

Definition mathMin (l : lodLevel) (k : Z) : lodLevel :=
  match l with
  | Lvl n => Lvl (Z.min n k)
  | _ => LvlNaN
  end.
Definition mathMax (l : lodLevel) (k : Z) : lodLevel :=
  match l with
  | Lvl n => Lvl (Z.max n k)
  | _ => LvlNaN
  end.

(** [a >= b] on such values: false as soon as one side is not a number. *)
Definition level_ge (a b : lodLevel) : bool :=
  match a, b with
  | Lvl x, Lvl y => (y <=? x)%Z
  | _, _ => false
  end.

Record ChannelRule := mkRule {
  defaultLod : Z;
  complexThreshold : jsstring
}.

(** The own properties of [this.channelRules]. *)
Definition channelRules : gmap (list N) ChannelRule :=
  list_to_map
    [ (str "task", mkRule 0 (str "complex"));
      (str "context", mkRule 1 (str "medium"));
      (str "handoff", mkRule 1 (str "complex"));
      (str "query", mkRule 0 (str "medium"));
      (str "data", mkRule 2 (str "simple")) ].

(** [channelRules] is an object literal, so a lookup that misses its own
    properties goes on to [Object.prototype], whose members are all
    truthy and have no [defaultLod]. *)
Definition objectPrototypeKeys : list jsstring :=
  map str
    [ "constructor"; "hasOwnProperty"; "isPrototypeOf";
      "propertyIsEnumerable"; "toLocaleString"; "toString"; "valueOf";
      "__proto__"; "__defineGetter__"; "__defineSetter__";
      "__lookupGetter__"; "__lookupSetter__" ]%string.

Definition inheritedKey (k : jsstring) : bool :=
  existsb (str_eqb k) objectPrototypeKeys.

(** [(this.channelRules[channel] || { defaultLod: 1, ... }).defaultLod]. *)
Definition rulesDefaultLod (channel : jsstring) : lodLevel :=
  match channelRules !! channel with
  | Some r => Lvl (defaultLod r)
  | None => if inheritedKey channel then LvlUndefined else Lvl 1
  end.

(** The truthiness of the two fields of [taskContext] that are read. *)
Record TaskContext := mkContext {
  needsFullContext : bool;
  quickAssessment : bool
}.

Record Assessment := mkAssessment {
  level : lodLevel;
  reason : jsstring;
  spawnHelper : bool;
  a_fortune : Fortune;
  channel : jsstring
}.

Definition is_str (o : option jsstring) (s : string) : bool :=
  match o with
  | Some v => str_eqb v (str s)
  | None => false
  end.

Definition assessRequiredLOD (header : Header) (taskContext : TaskContext)
    : Assessment :=
  let fortune := parseFortune (fortune header) in
  let channel :=
    match glow_channel header with
    | None | Some [] => str "context"
    | Some c => c
    end in
  let level := rulesDefaultLod channel in
  let reason := str "Default for " ++ channel ++ str " channel" in
  let spawnHelper := false in
  let '(level, reason, spawnHelper) :=
    if is_str (f_complexity fortune) "simple" then
      (mathMin level 0, str "Simple task, LOD-0 sufficient", spawnHelper)
    else if is_str (f_complexity fortune) "complex" then
      if (lod_count header >=? 4)%Z then
        (mathMax level 2, str "Very complex, spawning helper for LOD-3", true)
      else (mathMax level 2, str "Complex task, need full context", spawnHelper)
    else (level, reason, spawnHelper) in
  let '(level, reason) :=
    if needsFullContext taskContext
    then (mathMax level 2, str "Task requires full context")
    else (level, reason) in
  let '(level, reason) :=
    if quickAssessment taskContext
    then (Lvl 0, str "Quick assessment mode")
    else (level, reason) in
  let '(level, reason) :=
    if is_str (stone_type header) "handoff"
       && negb (is_str (f_complexity fortune) "simple")
    then (mathMax level 1, str "Handoff requires at least LOD-1")
    else (level, reason) in
  mkAssessment level reason spawnHelper fortune channel.

(** ** Token estimates *)

(** [Math.ceil(words * 0.75)]: the product is exact in double precision
    for every word count a string can have, so the ceiling is that of
    [3 * words / 4]. *)
Definition estimateTokens (content : jsstring) : Z :=
  match content with
  | [] => 0%Z
  | _ =>
      let words := Z.of_nat (length (split_runs is_ws content)) in
      ((3 * words + 3) / 4)%Z
  end.

(** An integer of at most 63 bits as a double. *)
Definition float_of_Z (z : Z) : float :=
  if (z <? 0)%Z then PrimFloat.opp (PrimFloat.of_uint63 (Uint63.of_Z (- z)))
  else PrimFloat.of_uint63 (Uint63.of_Z z).

(** [Math.round] on a finite double: the floor of [x + 1/2], computed on
    the exact value [m * 2^e].  Negative zero is read as 0; infinities and
    [NaN], which the quotient by a positive count never gives, as 0. *)
Definition mathRound (x : float) : Z :=
  match Prim2SF x with
  | S754_finite s m e =>
      let v := if s then Z.neg m else Z.pos m in
      if (0 <=? e)%Z then (v * 2 ^ e)%Z
      else ((2 * v + 2 ^ (- e)) / 2 ^ (- e + 1))%Z
  | _ => 0%Z
  end.

(** [Math.round((saved / fullTokens) * 100)]. *)
Definition percentOf (saved fullTokens : Z) : Z :=
  mathRound
    (PrimFloat.mul (PrimFloat.div (float_of_Z saved) (float_of_Z fullTokens))
       (float_of_Z 100)).

(** [Object.values(o).join('\n\n')]. *)
Definition joinValues (o : list (Z * jsstring)) : jsstring :=
  join [LF; LF] (map snd o).

(** The object [getTokenSavings] returns, as the map of its properties.
    Past the guard the content is a string, [isQAStone] accepting nothing
    else; the last branch of the [match] is never taken. *)
Definition getTokenSavings (content : jsval) (loadedLevel : Z)
    : M (gmap string Z) :=
  if negb (isQAStone content) then
    ret (list_to_map
           [ ("saved", 0%Z); ("percentage", 0%Z); ("headerTokens", 0%Z);
             ("fullTokens", 0%Z) ]%string)
  else
    match content with
    | JStr s =>
        header <- parseHeader content ;;
        let headerTokens := estimateTokens (raw_header header) in
        allLods <- extractLODsUpTo s 3 ;;
        let fullContent := joinValues allLods in
        let fullTokens := estimateTokens fullContent in
        loadedLods <- extractLODsUpTo s loadedLevel ;;
        let loadedContent := joinValues loadedLods in
        let loadedTokens := (estimateTokens loadedContent + headerTokens)%Z in
        let saved := (fullTokens - loadedTokens)%Z in
        let percentage :=
          if (fullTokens >? 0)%Z then percentOf saved fullTokens else 0%Z in
        ret (list_to_map
               [ ("saved", saved); ("percentage", percentage);
                 ("headerTokens", headerTokens);
                 ("loadedTokens", loadedTokens);
                 ("fullTokens", fullTokens) ]%string)
    | _ => throw notAStone
    end.

Definition clearCache : M unit :=
  fun _ => (Normal tt, mkState ∅ ∅).

(** ** Building a stone *)

(** [ToInt32]: what [<<] and [&] leave of a number. *)
Definition wrap32 (z : Z) : Z := ((z + 2 ^ 31) mod 2 ^ 32 - 2 ^ 31)%Z.

(** One round of the hash loop: [hash = ((hash << 5) - hash) + char;
    hash = hash & hash]. *)
Definition hashStep (hash : Z) (char : N) : Z :=
  wrap32 (wrap32 (hash * 32) - hash + Z.of_N char).

(** [n.toString(16)] for a non-negative integer. *)
Definition toHex (n : Z) : jsstring := toRadix 16 n.

Definition padStart (n : nat) (c : N) (s : jsstring) : jsstring :=
  repeat c (n - length s) ++ s.

Definition _generateHash (content : jsstring) : jsstring :=
  let hash := fold_left hashStep content 0%Z in
  substring 0 8 (padStart 8 48 (toHex (Z.abs hash))).

(** The class [[.!?]]. *)
Definition is_stop (c : N) : bool := (c =? 46) || (c =? 33) || (c =? 63).

(** [s => s.trim()] as a filter: keeps what is not blank. *)
Definition notBlank (s : jsstring) : bool :=
  match trim s with
  | [] => false
  | _ => true
  end.

(** [a || b] on strings. *)
Definition orElse (a : option jsstring) (b : jsstring) : jsstring :=
  match a with
  | Some (c :: r) => c :: r
  | _ => b
  end.

(** The object [{ 0: lod0, 1: lod1, 2: lod2, 3: lod3 }]. *)
Definition _generateLODs (content : jsstring) : gmap N (list N) :=
  let sentences := List.filter notBlank (split_runs is_stop content) in
  let paragraphs := List.filter notBlank (split_paras content) in
  let lod0 := orElse (sentences !! 0%nat) (substring 0 100 content) in
  let lod0 :=
    if (1 <? length sentences)%nat && (length lod0 <? 50)%nat
    then lod0 ++ str ". " ++ default [] (sentences !! 1%nat)
    else lod0 in
  let lod0 := substring 0 150 lod0 in
  let lod1 := orElse (paragraphs !! 0%nat) (substring 0 500 content) in
  let lod1 :=
    if (length lod1 <? 100)%nat && (1 <? length paragraphs)%nat
    then lod1 ++ [LF; LF] ++ default [] (paragraphs !! 1%nat)
    else lod1 in
  let lod1 := substring 0 500 lod1 in
  let lod2 := content in
  let lod3 := [] in
  <[0 := lod0]> (<[1 := lod1]> (<[2 := lod2]> (<[3 := lod3]> ∅))).

Definition isWordOpt (c : option N) : bool :=
  match c with
  | Some x => is_word x
  | None => false
  end.

(** [\b] between two neighbouring positions. *)
Definition boundary (before after : option N) : bool :=
  xorb (isWordOpt before) (isWordOpt after).

(** [/\b(w1|w2|...)\b/.test(s)]: some start position has a boundary, one
    of the words, and a boundary again. *)
Fixpoint testWords_go (alts : list jsstring) (prev : option N)
    (s : jsstring) : bool :=
  (boundary prev (head s)
   && existsb
        (fun w => startsWith s w
                  && boundary (last w) (head (drop (length w) s)))
        alts)
  || match s with
     | [] => false
     | c :: s' => testWords_go alts (Some c) s'
     end.
Definition testWords (alts : list string) (s : jsstring) : bool :=
  testWords_go (map str alts) None s.

Definition _calculateFortune (content channel : jsstring) : jsstring :=
  let contentLower := toLowerCase content in
  let category :=
    if testWords ["git"; "repo"; "github"; "commit"]%string contentLower
    then str "repo"
    else if testWords ["api"; "endpoint"; "route"]%string contentLower
    then str "api"
    else if testWords ["database"; "sql"; "query"]%string contentLower
    then str "database"
    else if testWords ["ui"; "component"; "style"]%string contentLower
    then str "ui"
    else if testWords ["test"; "spec"; "assert"]%string contentLower
    then str "test"
    else str "general" in
  let wordCount := length (split_runs is_ws content) in
  let complexity :=
    if (200 <? wordCount)%nat then str "complex"
    else if (50 <? wordCount)%nat then str "medium"
    else str "simple" in
  channel ++ [58] ++ category ++ [58] ++ complexity.

(** The argument object of [buildStone]; [None] is a property left
    undefined, which takes its default. *)
Module Options.
Record t := mk {
  content : jsstring;
  glow_channel : option jsstring;
  stone_type : option jsstring;
  source_agent : option jsstring;
  lods : option (gmap N (list N))
}.
End Options.

(** [o[level]] as a condition and as text. *)
Definition lodText (o : gmap N (list N)) (level : N) : jsstring :=
  default [] (o !! level).

(** [Object.values(o).filter(v => v).length]. *)
Definition countLods (o : gmap N (list N)) : Z :=
  Z.of_nat
    (length (List.filter (fun v => negb (str_eqb v [])) (map snd (map_to_list o)))).

(** One round of [for (level = 0; level <= 3; level++)]. *)
Definition lodBlock (o : gmap N (list N)) (level : N) : jsstring :=
  match lodText o level with
  | [] => []
  | text =>
      [LF] ++ str "LOD-" ++ of_Z (Z.of_N level) ++ str ": " ++ text
        ++ [LF] ++ SEP
  end.

(** [buildStone]; [timestamp] is what [new Date().toISOString()] gives at
    the call. *)
Definition buildStone (timestamp : jsstring) (options : Options.t)
    : jsstring :=
  let content := Options.content options in
  let glow_channel := default (str "context") (Options.glow_channel options) in
  let stone_type := default (str "clipboard") (Options.stone_type options) in
  let source_agent := default (str "user") (Options.source_agent options) in
  let border_hash := _generateHash content in
  let lodLevels :=
    match Options.lods options with
    | Some o => o
    | None => _generateLODs content
    end in
  let fortune := _calculateFortune content glow_channel in
  let lodCount := countLods lodLevels in
  let stone :=
    OPEN ++ [LF]
    ++ str "border_hash: " ++ border_hash ++ [LF]
    ++ str "glow_channel: " ++ glow_channel ++ [LF]
    ++ str "stone_type: " ++ stone_type ++ [LF]
    ++ str "created: " ++ timestamp ++ [LF]
    ++ str "source_agent: " ++ source_agent ++ [LF]
    ++ str "lod_count: " ++ of_Z lodCount ++ [LF]
    ++ str "fortune: " ++ fortune ++ [LF]
    ++ SEP in
  let stone :=
    stone ++ lodBlock lodLevels 0 ++ lodBlock lodLevels 1
    ++ lodBlock lodLevels 2 ++ lodBlock lodLevels 3 in
  stone ++ [LF] ++ CLOSE.

(** ** Concrete inputs *)

Definition demoTime : jsstring := str "2024-01-15T10:30:00.000Z".
Definition demoContent : jsstring :=
  str "Create GitHub repo for ztgi-ui, shared UI library.".

Definition plainText : jsval := JStr (str "plain text, not a stone").

(** Two calls in a row, then a call on cleared caches. *)
Definition extractTwiceThenFresh (content : jsval) (lvl : Z)
    (st : ParserState) : completion jsval * completion jsval * completion jsval :=
  let '(r1, st1) := extractLOD content lvl st in
  let '(r2, st2) := extractLOD content lvl st1 in
  let '(_, st3) := clearCache st2 in
  (r1, r2, fst (extractLOD content lvl st3)).

(** The claim of C2 at one content, level and state. *)
Definition cacheTransparent (content : jsval) (lvl : Z) (st : ParserState)
    : Prop :=
  let '(r1, r2, r3) := extractTwiceThenFresh content lvl st in
  r1 = r2 /\ r2 = r3.

Definition stoneWith (lod0 : string) : jsstring :=
  OPEN ++ [LF] ++ str "border_hash: 00000000" ++ [LF]
  ++ str "glow_channel: task" ++ [LF] ++ SEP ++ [LF]
  ++ str "LOD-0: " ++ str lod0 ++ [LF] ++ SEP ++ [LF] ++ CLOSE.

Definition stoneA : jsstring := stoneWith "first".
Definition stoneB : jsstring := stoneWith "second".

(** The caches after one [extractLOD(stoneA, 0)] on a new parser. *)
Definition afterStoneA : ParserState :=
  snd (extractLOD (JStr stoneA) 0 newParser).

(** A stone whose channel is the name of a member of [Object.prototype]. *)
Definition constructorStone : jsstring :=
  OPEN ++ [LF] ++ str "glow_channel: constructor" ++ [LF] ++ SEP ++ [LF]
  ++ str "LOD-0: hello" ++ [LF] ++ SEP ++ [LF] ++ CLOSE.

Definition constructorHeader : Header := parseHeaderFresh constructorStone.

(** [header.glow_channel || 'context']. *)
Definition channelOf (header : Header) : jsstring :=
  match glow_channel header with
  | None | Some [] => str "context"
  | Some c => c
  end.

(** ** Predicates used in the statements *)

(** A string without a line feed: one line of [split('\n')]. *)
Definition noLF (s : jsstring) : bool :=
  forallb (fun c => negb (c =? LF)) s.

(** A header key: not empty, no white space, no colon. *)
Definition keyOK (k : jsstring) : bool :=
  match k with
  | [] => false
  | _ => forallb (fun c => negb (is_ws c) && negb (c =? 58)) k
  end.

(** A header line [key: value] as [buildStone] writes it. *)
Definition keyed (k : string) (v : jsstring) : jsstring :=
  str k ++ 58 :: 32 :: v.

(** The options of [buildStone] after the defaults of its destructuring. *)
Definition channelOption (o : Options.t) : jsstring :=
  default (str "context") (Options.glow_channel o).
Definition typeOption (o : Options.t) : jsstring :=
  default (str "clipboard") (Options.stone_type o).
Definition agentOption (o : Options.t) : jsstring :=
  default (str "user") (Options.source_agent o).
Definition lodsOption (o : Options.t) : gmap N (list N) :=
  match Options.lods o with
  | Some m => m
  | None => _generateLODs (Options.content o)
  end.

(** The time stamp and the three metadata strings have no line feed. *)
Definition singleLineMeta (timestamp : jsstring) (o : Options.t) : bool :=
  noLF timestamp && noLF (channelOption o) && noLF (typeOption o)
  && noLF (agentOption o).

(** What [buildStone] writes after the header's separator. *)
Definition stoneTail (m : gmap N (list N)) : jsstring :=
  lodBlock m 0 ++ lodBlock m 1 ++ lodBlock m 2 ++ lodBlock m 3
  ++ [LF] ++ CLOSE.

(** The nine lines of the header [buildStone] writes. *)
Definition stoneHeaderLines (timestamp : jsstring) (o : Options.t)
    : list jsstring :=
  [ OPEN;
    keyed "border_hash" (_generateHash (Options.content o));
    keyed "glow_channel" (channelOption o);
    keyed "stone_type" (typeOption o);
    keyed "created" timestamp;
    keyed "source_agent" (agentOption o);
    keyed "lod_count" (of_Z (countLods (lodsOption o)));
    keyed "fortune" (_calculateFortune (Options.content o) (channelOption o));
    SEP ].

(** A lower-case hexadecimal digit. *)
Definition isLowerHex (c : N) : bool :=
  ((48 <=? c) && (c <=? 57)) || ((97 <=? c) && (c <=? 102)).

(** The options of the scenario: the content and the channel "task",
    everything else left to its default. *)
Definition demoOptions : Options.t :=
  Options.mk demoContent (Some (str "task")) None None None.
Definition demoStone : jsstring := buildStone demoTime demoOptions.

(** Options whose channel carries a second line. *)
Definition twoLineChannel : jsstring :=
  str "a:b:complex" ++ [LF] ++ str "lod_count: 9".
Definition injectedOptions : Options.t :=
  Options.mk (str "x") (Some twoLineChannel) None None None.
Definition injectedStone : jsstring := buildStone demoTime injectedOptions.

(** Options with a content that starts with a space. *)
Definition paddedOptions : Options.t :=
  Options.mk (str " a") None None None None.

(** The first line of a LOD block. *)
Definition lodLine (level : N) (text : jsstring) : jsstring :=
  str "LOD-" ++ of_Z (Z.of_N level) ++ str ": " ++ text.

(** The value the LOD cache holds for a content and a level. *)
Definition cachedLOD (st : ParserState) (s : jsstring) (k : Z) : jsstring :=
  default [] (lodCache st !! lodKey s k).

(** The object [extractLODsUpTo] builds from the values [val] of the
    levels: the levels with a non-empty value, in order. *)
Definition collect (val : Z -> jsstring) (levels : list Z)
    : list (Z * jsstring) :=
  flat_map (fun k => match val k with [] => [] | v => [(k, v)] end) levels.

(** [pat] occurs in [t] as a contiguous substring. *)
Definition occurs (pat t : jsstring) : Prop :=
  exists a b, t = a ++ pat ++ b.

(** No line of [t] but the first starts with [m]. *)
Definition laterLinesAvoid (m t : jsstring) : Prop :=
  Forall (fun l => startsWith l m = false) (tail (split_lines t)).

(** A marker text that a joint ". " or a line feed cannot complete: not
    empty, on one line, without full stop and without space. *)
Definition markerOK (m : jsstring) : bool :=
  match m with
  | [] => false
  | _ => noLF m && forallb (fun u => negb (u =? 46) && negb (u =? 32)) m
  end.

(** A line that does not end a LOD block: it does not start with "LOD-",
    is not the separator once trimmed, and is not the close marker. *)
Definition quietLine (l : jsstring) : bool :=
  negb (startsWith l (str "LOD-")) && negb (str_eqb (trim l) SEP)
  && negb (str_eqb l CLOSE).

(** A content that level 2 gives back: every line after the first is
    quiet, and the first line, when others follow, has no white space at
    its end. *)
Definition readableContent (content : jsstring) : bool :=
  match split_lines content with
  | l :: ls =>
      forallb quietLine ls
      && (str_eqb (trimEnd l) l || match ls with [] => true | _ => false end)
  | [] => true
  end.

(** A content of two paragraphs, and its options. *)
Definition twoParagraphs : jsstring :=
  str "First paragraph. It has two sentences." ++ [LF; LF]
  ++ str "Second paragraph, on a later line.".
Definition twoParagraphOptions : Options.t :=
  Options.mk twoParagraphs None None None None.

(** [n] one-letter words separated by single spaces. *)
Definition wordsText (n : nat) : jsstring := join [32] (repeat [119] n).

(** A stone with an empty header, 20 words at level 0 and 33 at level 1. *)
Definition roundingStone : jsstring :=
  OPEN ++ [LF] ++ SEP ++ [LF]
  ++ lodLine 0 (wordsText 20) ++ [LF] ++ SEP ++ [LF]
  ++ lodLine 1 (wordsText 33) ++ [LF] ++ SEP ++ [LF] ++ CLOSE.

(** ** Progressive loading *)

(** The object [progressiveLoad] returns; [None] is a property that the
    early return leaves out. *)
Module Loaded.
Record t := mk {
  content : jsval;
  loadedLevel : Z;
  isStone : bool;
  header : option Header;
  lods : option (list (Z * jsstring))
}.
End Loaded.

(** [lods[level]] on the object [extractLODsUpTo] built. *)
Fixpoint lookupLevel (o : list (Z * jsstring)) (level : Z)
    : option jsstring :=
  match o with
  | [] => None
  | (k, v) :: o' => if (k =? level)%Z then Some v else lookupLevel o' level
  end.

(** One round of the loop that combines the levels. *)
Definition combineStep (lods : list (Z * jsstring)) (combinedContent : jsstring)
    (level : Z) : jsstring :=
  match lookupLevel lods level with
  | Some (c :: r) =>
      match combinedContent with
      | [] => c :: r
      | _ => combinedContent ++ [LF; LF] ++ c :: r
      end
  | _ => combinedContent
  end.

(** [progressiveLoad(content, maxLevel)]; a caller that leaves [maxLevel]
    out passes 1. *)
Definition progressiveLoad (content : jsval) (maxLevel : Z) : M Loaded.t :=
  if negb (isQAStone content) then
    ret (Loaded.mk content (-1) false None None)
  else
    match content with
    | JStr s =>
        header <- parseHeader content ;;
        lods <- extractLODsUpTo s maxLevel ;;
        let combinedContent :=
          fold_left (combineStep lods) (levelsUpTo maxLevel) [] in
        ret (Loaded.mk (JStr combinedContent) maxLevel true (Some header)
               (Some lods))
    | _ => throw notAStone
    end.

(** ** Predicates on methods *)

(** A method that leaves every entry of both caches in place. *)
Definition cachesGrow {A} (m : M A) : Prop :=
  forall st,
    lodCache st ⊆ lodCache (snd (m st))
    /\ headerCache st ⊆ headerCache (snd (m st)).


(** [v || undefined] on a string: the value when it is truthy. *)
Definition truthy (v : jsstring) : option jsstring :=
  match v with
  | [] => None
  | _ => Some v
  end.

(** [acc] followed by the strings [xs], with the blank line of
    [progressiveLoad] between any two of them. *)
Definition appendJoined (acc : jsstring) (xs : list jsstring) : jsstring :=
  match xs with
  | [] => acc
  | _ =>
      match acc with
      | [] => join [LF; LF] xs
      | _ => acc ++ [LF; LF] ++ join [LF; LF] xs
      end
  end.
(** The options of the scenario with another source agent: the stone
    they give shares its first 100 code units with [demoStone]. *)
Definition plannerOptions : Options.t :=
  Options.mk demoContent (Some (str "task")) None (Some (str "planner")) None.
Definition plannerStone : jsstring := buildStone demoTime plannerOptions.

(** The header loop on lines that are not separators. *)
Definition headerLines (ls : list jsstring) (h : Header) : Header :=
  fold_left (fun h l => headerLine h (trim l)) ls h.

(** A line of a header that does not end it. *)
Definition fieldLine (l : jsstring) : bool :=
  noLF l && negb (str_eqb (trim l) SEP).

(** Two texts with a field on their sixteenth line, and a stone without
    separator. *)
Definition lateField (v : string) : jsstring :=
  OPEN ++ repeat LF 15 ++ str "fortune: " ++ str v.
Definition openStone : jsstring :=
  OPEN ++ [LF] ++ str "glow_channel: task" ++ [LF] ++ str "LOD-0: text".
(** A string without colon: one part of [split(':')]. *)
Definition noColon (s : jsstring) : bool :=
  forallb (fun c => negb (c =? 58)) s.

(** The number of pieces of [content.split(/\s+/)]. *)
Definition wordCount (content : jsstring) : nat :=
  length (split_runs is_ws content).

(** The six categories a fortune can carry. *)
Definition categories : list jsstring :=
  map str ["repo"; "api"; "database"; "ui"; "test"; "general"]%string.

(** Options with a content of 201 words, everything else left to its
    default. *)
Definition longOptions : Options.t :=
  Options.mk (wordsText 201) None None None None.
(** The lines a LOD block adds to a stone. *)
Definition blockLines (m : gmap N (list N)) (level : N) : list jsstring :=
  match lodText m level with
  | [] => []
  | text => [lodLine level text; SEP]
  end.

(** The marker [`LOD-${level}:`] that [extractLOD] looks for. *)
Definition lodMarker (level : N) : jsstring :=
  str "LOD-" ++ of_Z (Z.of_N level) ++ [58].

(** Each of the four levels that [buildStone] writes is on one line. *)
Definition singleLineLevels (m : gmap N (list N)) : bool :=
  forallb (fun level => noLF (lodText m level)) [0; 1; 2; 3].

(** Options with supplied levels: level 1 is left out and level 2 has
    white space at both ends. *)
Definition suppliedLevels : gmap N (list N) :=
  <[0 := str "brief"]> (<[2 := str "  the full text "]> ∅).
Definition suppliedOptions : Options.t :=
  Options.mk demoContent (Some (str "task")) None None (Some suppliedLevels).

(** A content of one sentence without its full stop. *)
Definition oneSentence : jsstring := str "Rename the build script".


(** * Properties *)

(** ** Strings *)

Lemma str_eqb_eq (a b : jsstring) : str_eqb a b = true <-> a = b.
Proof.
  revert b; induction a as [|x a IH]; intros [|y b]; simpl;
    try (split; [discriminate | congruence]); try tauto.
  rewrite andb_true_iff, N.eqb_eq, IH. split.
  - intros [-> ->]; reflexivity.
  - intros [= -> ->]; auto.
Qed.

Lemma startsWith_app (p s : jsstring) : startsWith (p ++ s) p = true.
Proof. induction p as [|c p IH]; simpl; [reflexivity|]. now rewrite N.eqb_refl. Qed.

Lemma startsWith_prefix (s p : jsstring) :
  startsWith s p = true <-> exists r, s = p ++ r.
Proof.
  revert s; induction p as [|y p IH]; intros s; simpl.
  - split; [exists s; reflexivity | reflexivity].
  - destruct s as [|x s].
    + split; [discriminate | intros [r Hr]; discriminate].
    + rewrite andb_true_iff, N.eqb_eq, IH. split.
      * intros [-> [r ->]]; exists r; reflexivity.
      * intros [r [= -> ->]]; eauto.
Qed.

(** A code unit that is not white space stops [trimEnd]. *)
Lemma trimEnd_keep (a : jsstring) (c : N) (b : jsstring) :
  is_ws c = false -> trimEnd (a ++ c :: b) = a ++ c :: trimEnd b.
Proof.
  intros Hc. induction a as [|x a IH]; simpl.
  - rewrite Hc. destruct (trimEnd b); reflexivity.
  - rewrite IH. destruct a; reflexivity.
Qed.

Lemma trimEnd_nil_iff (s : jsstring) :
  trimEnd s = [] <-> forallb is_ws s = true.
Proof.
  induction s as [|c s IH]; simpl; [tauto|].
  destruct (trimEnd s) eqn:E.
  - destruct (is_ws c); simpl; [tauto|]. split; discriminate.
  - split; [discriminate|]. rewrite andb_true_iff. intros [_ H].
    apply IH in H; discriminate.
Qed.

(** ** Detection (C6) *)

Lemma isQAStone_buildStone (timestamp : jsstring) (options : Options.t) :
  isQAStone (JStr (buildStone timestamp options)) = true.
Proof.
  unfold buildStone.
  repeat rewrite <- app_assoc.
  set (rest := [LF] ++ _).
  change (OPEN ++ rest) with (167 :: str "QASTONE" ++ 167 :: rest).
  cbn [isQAStone app str]. unfold trim. cbn [trimStart is_ws].
  change (is_ws 167) with false. cbv iota.
  change (167 :: N_of_ascii "Q" :: N_of_ascii "A" :: N_of_ascii "S"
            :: N_of_ascii "T" :: N_of_ascii "O" :: N_of_ascii "N"
            :: N_of_ascii "E" :: 167 :: rest)
    with ((167 :: str "QASTONE") ++ 167 :: rest).
  rewrite trimEnd_keep by reflexivity.
  change ((167 :: str "QASTONE") ++ 167 :: trimEnd rest)
    with (OPEN ++ trimEnd rest).
  apply startsWith_app.
Qed.

(** C6. [isQAStone] holds exactly of the strings whose trimmed form starts
    with the open marker; it holds of every stone [buildStone] emits,
    whatever the options and the clock; and it answers [false], without
    failing, on the empty string and on every value that is not a
    string. *)
Theorem isQAStone_detects :
  (forall v : jsval,
      isQAStone v = true <->
      exists s, v = JStr s /\ startsWith (trim s) OPEN = true)
  /\ (forall timestamp options,
         isQAStone (JStr (buildStone timestamp options)) = true)
  /\ isQAStone (JStr []) = false
  /\ isQAStone JUndefined = false
  /\ isQAStone JNull = false
  /\ (forall b, isQAStone (JBool b) = false)
  /\ (forall z, isQAStone (JNum z) = false)
  /\ isQAStone JObj = false.
Proof.
  split; [|split]; [| |repeat split; reflexivity].
  - intros v; split.
    + destruct v as [| | | |s|]; simpl; try discriminate.
      destruct s; [discriminate|]. intros H; eauto.
    + intros [s [-> H]]. simpl. destruct s; [discriminate H | exact H].
  - apply isQAStone_buildStone.
Qed.

(** ** Header parsing fails exactly off stones (C4) *)

Lemma isQAStone_string (v : jsval) :
  isQAStone v = true -> exists s, v = JStr s.
Proof. destruct v; try discriminate; eauto. Qed.

(** C4. [parseHeader] throws its one error exactly when [isQAStone]
    rejects the content, and returns a header exactly when [isQAStone]
    accepts it, in every state of the caches. *)
Theorem parseHeader_throws_iff (content : jsval) (st : ParserState) :
  (fst (parseHeader content st) = Throw notAStone <->
   isQAStone content = false)
  /\ (isQAStone content = true <->
      exists h, fst (parseHeader content st) = Normal h).
Proof.
  unfold parseHeader. destruct (isQAStone content) eqn:E; simpl.
  - destruct (isQAStone_string _ E) as [s ->].
    destruct (headerCache st !! substring 0 100 s); simpl;
      (split; split; intros; eauto; discriminate).
  - split; [tauto|]. split; [discriminate | intros [h H]; discriminate].
Qed.

(** ** The result off stones lacks a field (C8) *)

(** C8, evaluated at a plain string: the object returned off a stone has
    [saved], [percentage], [headerTokens] and [fullTokens] at 0 and no
    [loadedTokens] property at all. *)
Theorem getTokenSavings_plain_text :
  isQAStone plainText = false
  /\ exists o : gmap string Z,
      fst (getTokenSavings plainText 0 newParser) = Normal o
      /\ o !! "saved"%string = Some 0%Z
      /\ o !! "percentage"%string = Some 0%Z
      /\ o !! "headerTokens"%string = Some 0%Z
      /\ o !! "fullTokens"%string = Some 0%Z
      /\ o !! "loadedTokens"%string = None.
Proof.
  split; [reflexivity|]. eexists. split; [reflexivity|].
  repeat split; vm_compute; reflexivity.
Qed.

(** The same holds of every content that is not a stone, at every level
    and in every state. *)
Lemma getTokenSavings_not_stone (content : jsval) (loadedLevel : Z)
    (st : ParserState) :
  isQAStone content = false ->
  exists o : gmap string Z,
    getTokenSavings content loadedLevel st = (Normal o, st)
    /\ o !! "loadedTokens"%string = None
    /\ forall k, k <> "loadedTokens"%string ->
         k ∈ ["saved"; "percentage"; "headerTokens"; "fullTokens";
              "loadedTokens"]%string ->
         o !! k = Some 0%Z.
Proof.
  intros E. unfold getTokenSavings. rewrite E. simpl.
  eexists. split; [reflexivity|]. split; [vm_compute; reflexivity|].
  intros k Hk Hin.
  repeat (apply elem_of_cons in Hin as [-> | Hin];
          [first [vm_compute; reflexivity | congruence]|]).
  inversion Hin.
Qed.

(** ** Idempotent extraction and the prefix-keyed cache (C2) *)

(** C2, evaluated on two stones: the cache of [extractLOD] is keyed by
    the first 50 code units of the content and the level, and [stoneB]
    shares these 50 code units with [stoneA]. After [stoneA] was read,
    level 0 of [stoneB] comes from the cache as "first", the text of
    [stoneA], while a computation on cleared caches gives "second": the
    cache returns a result computed for another content, and the value
    of the two calls in a row differs from the fresh one. *)
Theorem cache_returns_other_stone :
  fst (extractLOD (JStr stoneB) 0 afterStoneA) = Normal (JStr (str "first"))
  /\ fst (extractLOD (JStr stoneB) 0 newParser) = Normal (JStr (str "second"))
  /\ ~ cacheTransparent (JStr stoneB) 0 afterStoneA.
Proof.
  split; [vm_compute; reflexivity|]. split; [vm_compute; reflexivity|].
  unfold cacheTransparent.
  assert (E : extractTwiceThenFresh (JStr stoneB) 0 afterStoneA
              = (Normal (JStr (str "first")), Normal (JStr (str "first")),
                 Normal (JStr (str "second")))) by (vm_compute; reflexivity).
  rewrite E. intros [_ H]. discriminate H.
Qed.

(** Where the cache is transparent. Two calls in a row with the same
    arguments return the same value in every state of the caches; and
    when the LOD cache has no entry under the key of the call, as on a
    new parser or right after [clearCache], that value is the one a call
    on cleared caches computes. *)
Lemma extractLOD_twice_and_fresh (content : jsval) (lvl : Z)
    (st : ParserState) :
  let '(r1, r2, r3) := extractTwiceThenFresh content lvl st in
  r1 = r2
  /\ ((forall s, content = JStr s -> lodCache st !! lodKey s lvl = None) ->
      r2 = r3).
Proof.
  unfold extractTwiceThenFresh, extractLOD.
  destruct content as [| | | |s|]; try (simpl; split; reflexivity).
  unfold bind, ret, extractLODStr, clearCache.
  destruct (isQAStone (JStr s)) eqn:E; simpl; [|split; reflexivity].
  destruct (lodCache st !! lodKey s lvl) as [r|] eqn:L; simpl.
  - rewrite L. simpl. rewrite lookup_empty. simpl.
    split; [reflexivity|]. intros H. specialize (H s eq_refl). congruence.
  - rewrite lookup_insert_eq. simpl. rewrite lookup_empty. simpl.
    split; reflexivity.
Qed.

Lemma extractLOD_twice_and_fresh_witness :
  cacheTransparent (JStr stoneA) 0 newParser.
Proof.
  unfold cacheTransparent.
  pose proof (extractLOD_twice_and_fresh (JStr stoneA) 0 newParser) as H.
  destruct (extractTwiceThenFresh (JStr stoneA) 0 newParser) as [[r1 r2] r3].
  destruct H as [H1 H2]. split; [exact H1|].
  apply H2. intros s E. injection E as <-. reflexivity.
Defined.

(** ** The assessed level (C5, C9) *)

(** C9, evaluated on a parsed header: for the channel "constructor" the
    lookup in [channelRules] finds the inherited member, the fallback
    rule is not taken, and the level returned is [undefined], which is no
    number between 0 and 2. *)
Theorem assess_level_undefined :
  fst (parseHeader (JStr constructorStone) newParser) = Normal constructorHeader
  /\ glow_channel constructorHeader = Some (str "constructor")
  /\ rulesDefaultLod (str "constructor") = LvlUndefined
  /\ level (assessRequiredLOD constructorHeader (mkContext false false))
     = LvlUndefined.
Proof. repeat split; vm_compute; reflexivity. Qed.

(** C5, evaluated on the same header: with [needsFullContext] the level is
    [NaN], without it [undefined], and [NaN >= undefined] is false. *)
Theorem assess_not_monotone_undefined :
  level (assessRequiredLOD constructorHeader (mkContext true false)) = LvlNaN
  /\ level (assessRequiredLOD constructorHeader (mkContext false false))
     = LvlUndefined
  /\ level_ge
       (level (assessRequiredLOD constructorHeader (mkContext true false)))
       (level (assessRequiredLOD constructorHeader (mkContext false false)))
     = false.
Proof. repeat split; vm_compute; reflexivity. Qed.

Lemma channelRules_range (c : jsstring) (r : ChannelRule) :
  channelRules !! c = Some r -> (0 <= defaultLod r <= 2)%Z.
Proof.
  intros H. apply elem_of_list_to_map_2 in H.
  repeat (apply elem_of_cons in H as [[= _ ->] | H]; [simpl; lia|]).
  inversion H.
Qed.

(** Away from the inherited names the default level is a number from 0
    to 2: an own rule, or the fallback 1. *)
Lemma rulesDefaultLod_range (c : jsstring) :
  inheritedKey c = false ->
  exists n, rulesDefaultLod c = Lvl n /\ (0 <= n <= 2)%Z.
Proof.
  intros Hc. unfold rulesDefaultLod.
  destruct (channelRules !! c) as [r|] eqn:E.
  - exists (defaultLod r). split; [reflexivity|]. eapply channelRules_range; eauto.
  - rewrite Hc. exists 1%Z. split; [reflexivity | lia].
Qed.

(** The tests [assessRequiredLOD] makes on the header. *)
Ltac assess_cases header :=
  destruct (is_str (f_complexity (parseFortune (fortune header))) "simple"),
    (is_str (f_complexity (parseFortune (fortune header))) "complex"),
    (lod_count header >=? 4)%Z, (is_str (stone_type header) "handoff").

Lemma assess_channel (header : Header) (taskContext : TaskContext) :
  channel (assessRequiredLOD header taskContext) = channelOf header.
Proof.
  unfold assessRequiredLOD.
  assess_cases header; destruct (needsFullContext taskContext),
    (quickAssessment taskContext);
    reflexivity.
Qed.

Section Assess.
Variable header : Header.
Hypothesis own_or_unknown : inheritedKey (channelOf header) = false.

(** For every channel that is not a name inherited from
    [Object.prototype], the level is 0, 1 or 2. *)
Lemma assess_level_range (taskContext : TaskContext) :
  exists n, level (assessRequiredLOD header taskContext) = Lvl n
            /\ (0 <= n <= 2)%Z.
Proof using own_or_unknown.
  unfold assessRequiredLOD. fold (channelOf header).
  destruct (rulesDefaultLod_range _ own_or_unknown) as [n [-> Hn]].
  assess_cases header; destruct (needsFullContext taskContext),
    (quickAssessment taskContext);
    cbn; eexists; (split; [reflexivity | lia]).
Qed.

(** For such a channel, turning [needsFullContext] on never lowers the
    level, everything else being equal. *)
Lemma assess_monotone (quick : bool) :
  level_ge (level (assessRequiredLOD header (mkContext true quick)))
           (level (assessRequiredLOD header (mkContext false quick)))
  = true.
Proof using own_or_unknown.
  unfold assessRequiredLOD. cbn [needsFullContext quickAssessment].
  fold (channelOf header).
  destruct (rulesDefaultLod_range _ own_or_unknown) as [n [-> Hn]].
  assess_cases header; destruct quick;
    cbn -[Z.leb Z.max Z.min]; apply Z.leb_le; lia.
Qed.
End Assess.

(** ** Lines, trimming and header lines *)

Lemma noLF_app (a b : jsstring) : noLF (a ++ b) = noLF a && noLF b.
Proof. apply forallb_app. Qed.

Lemma noLF_take (n : nat) (s : jsstring) : noLF s = true -> noLF (take n s) = true.
Proof.
  revert n; induction s as [|c s IH]; intros [|n]; simpl; auto.
  rewrite !andb_true_iff. intros [? ?]; auto.
Qed.

Lemma noLF_repeat (c : N) (n : nat) : c <> LF -> noLF (repeat c n) = true.
Proof.
  intros Hc. induction n; simpl; [reflexivity|].
  rewrite IHn, andb_true_r. apply negb_true_iff, N.eqb_neq, Hc.
Qed.

Lemma split_lines_cut (a b : jsstring) :
  noLF a = true -> split_lines (a ++ LF :: b) = a :: split_lines b.
Proof.
  unfold split_lines. induction a as [|c a IH]; simpl; [reflexivity|].
  rewrite andb_true_iff, negb_true_iff. intros [-> H].
  rewrite (IH H). reflexivity.
Qed.

Lemma split_lines_one (a : jsstring) : noLF a = true -> split_lines a = [a].
Proof.
  unfold split_lines. induction a as [|c a IH]; simpl; [reflexivity|].
  rewrite andb_true_iff, negb_true_iff. intros [-> H].
  rewrite (IH H). reflexivity.
Qed.

Lemma trimEnd_idem (s : jsstring) : trimEnd (trimEnd s) = trimEnd s.
Proof.
  induction s as [|c s IH]; simpl; [reflexivity|].
  destruct (trimEnd s) as [|x r] eqn:E.
  - destruct (is_ws c) eqn:W; simpl; [reflexivity | now rewrite W].
  - change (trimEnd (c :: x :: r)) with
      (match trimEnd (x :: r) with
       | [] => if is_ws c then [] else [c]
       | y :: r' => c :: y :: r'
       end).
    rewrite IH. reflexivity.
Qed.

Lemma trimStart_trimEnd (s : jsstring) :
  trimStart (trimEnd s) = trimEnd (trimStart s).
Proof.
  induction s as [|c s IH]; simpl; [reflexivity|].
  destruct (is_ws c) eqn:W.
  - rewrite <- IH. destruct (trimEnd s); simpl; now rewrite ?W.
  - simpl. destruct (trimEnd s); simpl; now rewrite W.
Qed.

Lemma trim_idem (s : jsstring) : trim (trim s) = trim s.
Proof.
  unfold trim. rewrite trimStart_trimEnd, trimEnd_idem.
  rewrite <- trimStart_trimEnd.
  assert (H : forall t, trimStart (trimStart t) = trimStart t).
  { induction t as [|c t IH]; simpl; [reflexivity|].
    destruct (is_ws c) eqn:W; [exact IH | simpl; now rewrite W]. }
  rewrite trimStart_trimEnd, H. reflexivity.
Qed.

Lemma trim_trimEnd (s : jsstring) : trim (trimEnd s) = trim s.
Proof. unfold trim. now rewrite trimStart_trimEnd, trimEnd_idem. Qed.

Lemma trim_noWS (k : jsstring) :
  forallb (fun c => negb (is_ws c)) k = true -> trim k = k.
Proof.
  intros H. unfold trim.
  assert (S : trimStart k = k).
  { destruct k as [|c k]; simpl in *; [reflexivity|].
    apply andb_true_iff in H as [H _]. apply negb_true_iff in H. now rewrite H. }
  rewrite S. clear S. induction k as [|c k IH]; simpl in *; [reflexivity|].
  apply andb_true_iff in H as [Hc H]. rewrite (IH H).
  apply negb_true_iff in Hc. destruct k; [now rewrite Hc | reflexivity].
Qed.

Lemma substring_0 (n : nat) (s : jsstring) : substring 0 n s = take n s.
Proof. unfold substring. simpl. now rewrite Nat.sub_0_r. Qed.

Lemma indexOf_key (k X : jsstring) :
  forallb (fun c => negb (c =? 58)) k = true ->
  indexOf 58 (k ++ 58 :: X) = Z.of_nat (length k).
Proof.
  induction k as [|c k IH]; [reflexivity|].
  cbn [forallb]. rewrite andb_true_iff, negb_true_iff. intros [Hc H].
  cbn [app indexOf]. rewrite Hc, (IH H).
  destruct (Z.ltb_spec (Z.of_nat (length k)) 0); [lia|].
  cbn [length]. lia.
Qed.

Lemma keyOK_parts (k : jsstring) :
  keyOK k = true ->
  k <> [] /\ forallb (fun c => negb (is_ws c)) k = true
  /\ forallb (fun c => negb (c =? 58)) k = true.
Proof.
  unfold keyOK. destruct k as [|c k]; [discriminate|].
  intros H. split; [discriminate|].
  revert H. generalize (c :: k). intros l. induction l as [|x l IH]; simpl; [auto|].
  rewrite !andb_true_iff. intros [[Ha Hb] Hl]. destruct (IH Hl). auto.
Qed.

(** The trimmed form of a line [key: value]. *)
Lemma trim_keyed (k v : jsstring) :
  keyOK k = true ->
  trim (k ++ 58 :: 32 :: v) = k ++ 58 :: trimEnd (32 :: v).
Proof.
  intros H. destruct (keyOK_parts k H) as [Hne [Hws _]].
  unfold trim. destruct k as [|c k]; [congruence|].
  cbn [forallb] in Hws. apply andb_true_iff in Hws as [Hc _].
  apply negb_true_iff in Hc.
  cbn [app trimStart]. rewrite Hc.
  change (c :: k ++ 58 :: 32 :: v) with ((c :: k) ++ 58 :: 32 :: v).
  now rewrite trimEnd_keep by reflexivity.
Qed.

(** What the header loop does with a line [key: value]. *)
Lemma headerLine_keyed (h : Header) (k v : jsstring) :
  keyOK k = true ->
  headerLine h (trim (k ++ 58 :: 32 :: v)) = setField h k (trim v).
Proof.
  intros H. rewrite (trim_keyed k v H).
  destruct (keyOK_parts k H) as [Hne [Hws Hcol]].
  unfold headerLine. rewrite (indexOf_key k _ Hcol).
  assert (L : (Z.of_nat (length k) >? 0)%Z = true).
  { destruct k; [congruence|]. cbn [length]. apply Z.gtb_lt. lia. }
  rewrite L, Nat2Z.id, substring_0. unfold substringFrom.
  rewrite take_app_length.
  replace (length k + 1)%nat with (length (k ++ [58])) by (rewrite length_app; reflexivity).
  change (k ++ 58 :: trimEnd (32 :: v)) with (k ++ [58] ++ trimEnd (32 :: v)).
  rewrite app_assoc, drop_app_length.
  rewrite (trim_noWS k Hws), trim_trimEnd. reflexivity.
Qed.

Lemma scanHeader_keyed (k v : jsstring) (ls : list jsstring) (i : nat)
    (h : Header) :
  keyOK k = true ->
  scanHeader ((k ++ 58 :: 32 :: v) :: ls) i h
  = scanHeader ls (S i) (setField h k (trim v)).
Proof.
  intros H. cbn [scanHeader]. rewrite (headerLine_keyed h k v H).
  rewrite (trim_keyed k v H).
  destruct k as [|c k]; [discriminate H|].
  assert (E : str_eqb ((c :: k) ++ 58 :: trimEnd (32 :: v)) SEP = false).
  { cbn. destruct k; cbn; now rewrite andb_false_r. }
  now rewrite E.
Qed.

(** ** The text [buildStone] writes *)

Lemma digitUnit_noLF (d : Z) : negb (digitUnit d =? LF) = true.
Proof.
  apply negb_true_iff, N.eqb_neq. unfold digitUnit, LF.
  destruct (d <? 10)%Z; lia.
Qed.

Lemma toRadix_go_noLF (base : Z) (fuel : nat) (n : Z) (acc : jsstring) :
  noLF acc = true -> noLF (toRadix_go base fuel n acc) = true.
Proof.
  revert n acc; induction fuel as [|fuel IH]; intros n acc H; simpl; [exact H|].
  destruct (n / base =? 0)%Z.
  - simpl. now rewrite digitUnit_noLF.
  - apply IH. simpl. now rewrite digitUnit_noLF.
Qed.

Lemma of_Z_noLF (z : Z) : noLF (of_Z z) = true.
Proof.
  unfold of_Z, toRadix. destruct (z <? 0)%Z.
  - cbn [noLF forallb]. apply andb_true_iff. split; [reflexivity|].
    now apply toRadix_go_noLF.
  - now apply toRadix_go_noLF.
Qed.

Lemma generateHash_noLF (content : jsstring) :
  noLF (_generateHash content) = true.
Proof.
  unfold _generateHash. rewrite substring_0. apply noLF_take.
  unfold padStart. rewrite noLF_app, noLF_repeat by discriminate.
  unfold toHex, toRadix. now apply toRadix_go_noLF.
Qed.

Lemma calculateFortune_noLF (content channel : jsstring) :
  noLF channel = true -> noLF (_calculateFortune content channel) = true.
Proof.
  intros H. unfold _calculateFortune. rewrite !noLF_app, H.
  repeat match goal with |- context [if ?b then _ else _] => destruct b end;
    reflexivity.
Qed.

Lemma keyed_noLF (k : string) (v : jsstring) :
  noLF (str k) = true -> noLF v = true -> noLF (keyed k v) = true.
Proof.
  intros Hk Hv. unfold keyed.
  change (str k ++ 58 :: 32 :: v) with (str k ++ [58; 32] ++ v).
  now rewrite !noLF_app, Hk, Hv.
Qed.

Lemma stoneTail_cons (m : gmap N (list N)) :
  exists t, stoneTail m = LF :: t.
Proof.
  unfold stoneTail, lodBlock.
  destruct (lodText m 0); [|eexists; reflexivity].
  destruct (lodText m 1); [|eexists; reflexivity].
  destruct (lodText m 2); [|eexists; reflexivity].
  destruct (lodText m 3); eexists; reflexivity.
Qed.

Lemma buildStone_text (timestamp : jsstring) (o : Options.t) :
  buildStone timestamp o
  = OPEN ++ LF :: keyed "border_hash" (_generateHash (Options.content o))
    ++ LF :: keyed "glow_channel" (channelOption o)
    ++ LF :: keyed "stone_type" (typeOption o)
    ++ LF :: keyed "created" timestamp
    ++ LF :: keyed "source_agent" (agentOption o)
    ++ LF :: keyed "lod_count" (of_Z (countLods (lodsOption o)))
    ++ LF :: keyed "fortune"
               (_calculateFortune (Options.content o) (channelOption o))
    ++ LF :: SEP ++ stoneTail (lodsOption o).
Proof.
  unfold buildStone, stoneTail, keyed.
  fold (channelOption o) (typeOption o) (agentOption o) (lodsOption o).
  repeat rewrite <- app_assoc. reflexivity.
Qed.

(** The lines of a stone whose metadata holds no line feed: the nine
    header lines, then the lines of the LOD blocks and the close marker. *)
Lemma buildStone_lines (timestamp : jsstring) (o : Options.t) :
  singleLineMeta timestamp o = true ->
  split_lines (buildStone timestamp o)
  = stoneHeaderLines timestamp o
    ++ split_lines (drop 1 (stoneTail (lodsOption o))).
Proof.
  unfold singleLineMeta. rewrite !andb_true_iff.
  intros [[[Hts Hg] Ht] Ha].
  rewrite buildStone_text.
  destruct (stoneTail_cons (lodsOption o)) as [t ->].
  rewrite split_lines_cut by reflexivity.
  rewrite split_lines_cut by (apply keyed_noLF; [reflexivity | apply generateHash_noLF]).
  rewrite split_lines_cut by (apply keyed_noLF; [reflexivity | exact Hg]).
  rewrite split_lines_cut by (apply keyed_noLF; [reflexivity | exact Ht]).
  rewrite split_lines_cut by (apply keyed_noLF; [reflexivity | exact Hts]).
  rewrite split_lines_cut by (apply keyed_noLF; [reflexivity | exact Ha]).
  rewrite split_lines_cut by (apply keyed_noLF; [reflexivity | apply of_Z_noLF]).
  rewrite split_lines_cut
    by (apply keyed_noLF; [reflexivity | now apply calculateFortune_noLF]).
  rewrite split_lines_cut by reflexivity.
  reflexivity.
Qed.

Lemma scanHeader_skip (l : jsstring) (ls : list jsstring) (i : nat)
    (h : Header) :
  str_eqb (trim l) SEP = false -> indexOf 58 (trim l) = (-1)%Z ->
  scanHeader (l :: ls) i h = scanHeader ls (S i) h.
Proof.
  intros E C. cbn [scanHeader]. rewrite E. unfold headerLine. now rewrite C.
Qed.

Lemma scanHeader_sep (ls : list jsstring) (i : nat) (h : Header) :
  scanHeader (SEP :: ls) i h = (h, i).
Proof. reflexivity. Qed.

(** The header parsed from such a stone: every field is the trimmed text
    written for it. *)
Lemma parseHeaderFresh_buildStone (timestamp : jsstring) (o : Options.t) :
  singleLineMeta timestamp o = true ->
  parseHeaderFresh (buildStone timestamp o)
  = mkHeader
      (Some (trim (_generateHash (Options.content o))))
      (Some (trim (channelOption o)))
      (Some (trim (typeOption o)))
      (Some (trim timestamp))
      (Some (trim (agentOption o)))
      (default 0%Z (parseInt (trim (of_Z (countLods (lodsOption o))))))
      (Some (trim (_calculateFortune (Options.content o) (channelOption o))))
      (join [LF] (stoneHeaderLines timestamp o)).
Proof.
  intros H. unfold parseHeaderFresh. rewrite (buildStone_lines _ _ H).
  unfold stoneHeaderLines, keyed.
  cbn [app firstn].
  rewrite scanHeader_skip by reflexivity.
  rewrite !scanHeader_keyed by reflexivity.
  rewrite scanHeader_sep.
  cbn [Nat.add firstn]. reflexivity.
Qed.

(** ** The scenario of the task stone (C7) *)

Lemma parseHeader_new (s : jsstring) (st : ParserState) :
  isQAStone (JStr s) = true ->
  headerCache st !! substring 0 100 s = None ->
  fst (parseHeader (JStr s) st) = Normal (parseHeaderFresh s).
Proof. intros E L. unfold parseHeader. now rewrite E, L. Qed.

(** C7. For the content "Create GitHub repo for ztgi-ui, shared UI
    library." and the channel "task", whatever single-line time stamp the
    clock gives: the header parsed by a parser that has no cached header
    for the stone has a [border_hash] of eight lower-case hexadecimal
    digits, its fortune splits into "task", "repo" and "simple", and
    [assessRequiredLOD] with an empty task context returns level 0. *)
Theorem task_stone_scenario (timestamp : jsstring) (st : ParserState) :
  noLF timestamp = true ->
  headerCache st !! substring 0 100 (buildStone timestamp demoOptions) = None ->
  exists header hash,
    fst (parseHeader (JStr (buildStone timestamp demoOptions)) st)
    = Normal header
    /\ border_hash header = Some hash
    /\ length hash = 8%nat
    /\ forallb isLowerHex hash = true
    /\ parseFortune (fortune header)
       = mkFortune (Some (str "task")) (Some (str "repo"))
           (Some (str "simple"))
    /\ level (assessRequiredLOD header (mkContext false false)) = Lvl 0.
Proof.
  intros Hts Hc.
  assert (Hm : singleLineMeta timestamp demoOptions = true).
  { unfold singleLineMeta. now rewrite Hts. }
  eexists; eexists. split.
  - rewrite parseHeader_new;
      [ rewrite (parseHeaderFresh_buildStone _ _ Hm); reflexivity
      | apply isQAStone_buildStone
      | exact Hc ].
  - cbn [border_hash fortune].
    split; [reflexivity|].
    repeat split; vm_compute; reflexivity.
Qed.

Lemma task_stone_scenario_witness :
  noLF demoTime = true
  /\ exists header hash,
      fst (parseHeader (JStr (buildStone demoTime demoOptions)) newParser)
      = Normal header
      /\ border_hash header = Some hash
      /\ length hash = 8%nat
      /\ forallb isLowerHex hash = true
      /\ parseFortune (fortune header)
         = mkFortune (Some (str "task")) (Some (str "repo"))
             (Some (str "simple"))
      /\ level (assessRequiredLOD header (mkContext false false)) = Lvl 0.
Proof.
  split; [reflexivity|].
  apply (task_stone_scenario demoTime newParser); reflexivity.
Defined.

(** ** Lines and occurrences *)

Lemma split_lines_nonempty (s : jsstring) :
  exists l ls, split_lines s = l :: ls.
Proof.
  unfold split_lines. destruct s as [|c s]; [eexists; eexists; reflexivity|].
  cbn [split_on]. destruct (c =? LF); [eauto|].
  destruct (split_on LF s); eauto.
Qed.

(** A line feed cuts the lines of a text in two lists. *)
Lemma split_lines_app_LF (x y : jsstring) :
  split_lines (x ++ LF :: y) = split_lines x ++ split_lines y.
Proof.
  unfold split_lines. induction x as [|c x IH]; [reflexivity|].
  cbn [app split_on]. rewrite IH.
  destruct (c =? LF); [reflexivity|].
  destruct (split_lines_nonempty x) as (l & ls & E). unfold split_lines in E.
  rewrite E. reflexivity.
Qed.

(** A prefix without line feed joins the first line. *)
Lemma split_lines_prefix (m b : jsstring) :
  noLF m = true ->
  split_lines (m ++ b)
  = match split_lines b with
    | l :: ls => (m ++ l) :: ls
    | [] => [m]
    end.
Proof.
  unfold split_lines. induction m as [|c m IH]; intros H.
  - cbn [app]. destruct (split_lines_nonempty b) as (l & ls & E).
    unfold split_lines in E. now rewrite E.
  - cbn [noLF forallb] in H. apply andb_true_iff in H as [Hc H].
    apply negb_true_iff in Hc. cbn [app split_on]. rewrite Hc, (IH H).
    destruct (split_on LF b); reflexivity.
Qed.

(** A text is its lines joined by line feeds. *)
Lemma split_lines_join (t l : jsstring) (ls : list jsstring) :
  split_lines t = l :: ls -> t = l ++ flat_map (cons LF) ls.
Proof.
  unfold split_lines. revert l ls; induction t as [|c t IH]; intros l ls.
  - cbn. intros [= <- <-]. reflexivity.
  - cbn [split_on]. destruct (c =? LF) eqn:Ec.
    + apply N.eqb_eq in Ec. subst c. intros [= <- <-].
      destruct (split_lines_nonempty t) as (l' & ls' & E).
      unfold split_lines in E. rewrite E in *. cbn [flat_map app].
      now rewrite (IH _ _ eq_refl).
    + destruct (split_on LF t) as [|l' ls'] eqn:E.
      * destruct (split_lines_nonempty t) as (? & ? & E').
        unfold split_lines in E'. congruence.
      * intros [= <- <-]. cbn [app]. now rewrite (IH _ _ eq_refl).
Qed.

Lemma occurs_sub (pat t a b : jsstring) :
  occurs pat t -> occurs pat (a ++ t ++ b).
Proof.
  intros (a' & b' & ->). exists (a ++ a'), (b' ++ b).
  now rewrite <- !app_assoc.
Qed.

Lemma occurs_take (pat t : jsstring) (n : nat) :
  occurs pat (take n t) -> occurs pat t.
Proof.
  intros H. rewrite <- (take_drop n t).
  apply (occurs_sub pat (take n t) [] (drop n t)) in H. exact H.
Qed.

Lemma occurs_nil (pat : jsstring) : pat <> [] -> ~ occurs pat [].
Proof.
  intros Hp (a & b & E). symmetry in E.
  apply app_eq_nil in E as [_ E]. apply app_eq_nil in E as [E _]. congruence.
Qed.

(** An occurrence cannot straddle a code unit the pattern does not hold. *)
Lemma occurs_app_sep (pat x y : jsstring) (c : N) :
  forallb (fun u => negb (u =? c)) pat = true ->
  occurs pat (x ++ c :: y) -> occurs pat x \/ occurs pat y.
Proof.
  intros Hc (a & b & E).
  assert (Hin : forall l r, pat = l ++ c :: r -> False).
  { intros l r ->. rewrite forallb_app in Hc. cbn in Hc.
    rewrite N.eqb_refl in Hc. cbn in Hc. now rewrite andb_false_r in Hc. }
  apply app_eq_app in E as [l [[-> E] | [-> E]]].
  - apply app_eq_app in E as [l' [[-> E] | [-> E]]].
    + destruct l' as [|u l'].
      * left. exists a, []. now rewrite !app_nil_r.
      * cbn in E. injection E as <- _. exfalso. eapply Hin; reflexivity.
    + left. exists a, l'. reflexivity.
  - destruct l as [|u l].
    + cbn in E. destruct pat as [|u pat].
      * left. exists x, []. now rewrite !app_nil_r.
      * cbn in E. injection E as <- _. exfalso. eapply (Hin []); reflexivity.
    + cbn in E. injection E as _ ->. right. exists l, b. reflexivity.
Qed.

Lemma startsWith_first_line (t l m : jsstring) (ls : list jsstring) :
  split_lines t = l :: ls -> startsWith l m = true -> startsWith t m = true.
Proof.
  intros E H. rewrite (split_lines_join _ _ _ E).
  apply startsWith_prefix in H as [r ->]. rewrite <- app_assoc.
  apply startsWith_app.
Qed.

(** A later line that starts with [m] is an occurrence of a line feed
    followed by [m], and conversely. *)
Lemma laterLinesAvoid_of_no_occurrence (m t : jsstring) :
  ~ occurs (LF :: m) t -> laterLinesAvoid m t.
Proof.
  unfold laterLinesAvoid. induction t as [|c t IH]; intros H.
  - constructor.
  - assert (Ht : ~ occurs (LF :: m) t).
    { intros O. apply H. apply (occurs_sub _ t [c] []) in O.
      now rewrite app_nil_r in O. }
    specialize (IH Ht).
    destruct (split_lines_nonempty t) as (l & ls & E).
    unfold split_lines in *. cbn [split_on]. rewrite E in *.
    destruct (c =? LF) eqn:Ec; [|exact IH].
    apply N.eqb_eq in Ec. subst c. cbn [tail] in *.
    constructor; [|exact IH].
    destruct (startsWith l m) eqn:S; [|reflexivity].
    exfalso. apply H.
    pose proof (startsWith_first_line t l m ls E S) as S'.
    apply startsWith_prefix in S' as [r ->].
    exists [], r. reflexivity.
Qed.

Lemma no_occurrence_of_laterLinesAvoid (m t : jsstring) :
  noLF m = true -> laterLinesAvoid m t -> ~ occurs (LF :: m) t.
Proof.
  unfold laterLinesAvoid. intros Hm H (a & b & ->).
  change (a ++ (LF :: m) ++ b) with (a ++ LF :: (m ++ b)) in H.
  rewrite split_lines_app_LF in H.
  destruct (split_lines_nonempty a) as (l & ls & Ea). rewrite Ea in H.
  cbn [app tail] in H. apply Forall_app in H as [_ H].
  rewrite (split_lines_prefix m b Hm) in H.
  destruct (split_lines_nonempty b) as (l' & ls' & Eb). rewrite Eb in H.
  apply Forall_cons in H as [H _].
  now rewrite startsWith_app in H.
Qed.

(** ** Pieces of a split are substrings *)

Lemma split_runs_go_sub (sep : N -> bool) (w s : jsstring) :
  forall inrun acc pre,
    w = pre ++ rev acc ++ s ->
    Forall (fun p => exists a b, w = a ++ p ++ b)
      (split_runs_go sep inrun acc s).
Proof.
  induction s as [|c s IH]; intros inrun acc pre E; cbn [split_runs_go].
  - constructor; [|constructor]. exists pre, []. exact E.
  - destruct (sep c).
    + assert (T : Forall (fun p => exists a b, w = a ++ p ++ b)
                    (split_runs_go sep true [] s)).
      { apply (IH true [] (pre ++ rev acc ++ [c])).
        rewrite E. cbn [rev app]. now rewrite <- !app_assoc. }
      destruct inrun; [exact T|].
      constructor; [|exact T]. exists pre, (c :: s). exact E.
    + apply (IH false (c :: acc) pre).
      rewrite E. cbn [rev]. now rewrite <- !app_assoc.
Qed.

Lemma split_runs_sub (sep : N -> bool) (w : jsstring) :
  Forall (fun p => exists a b, w = a ++ p ++ b) (split_runs sep w).
Proof. apply (split_runs_go_sub sep w w false [] []). reflexivity. Qed.

(** The pieces of [split_paras]: all are substrings, and every piece but
    the first stands right after a line feed. *)
Lemma split_paras_go_pieces (w : jsstring) (n : nat) :
  forall s inrun acc pre,
    (length s <= n)%nat ->
    w = pre ++ rev acc ++ s ->
    (inrun = true -> acc = []) ->
    exists p0 ps,
      split_paras_go inrun acc s = p0 :: ps
      /\ (exists k b, w = (pre ++ repeat LF k) ++ p0 ++ b)
      /\ Forall (fun p => exists a b, w = a ++ LF :: p ++ b) ps.
Proof.
  induction n as [|n IH]; intros s inrun acc pre Hn E Hacc.
  - destruct s; [|cbn in Hn; lia].
    exists (rev acc), []. split; [reflexivity|]. split; [|constructor].
    exists 0%nat, []. cbn [repeat]. now rewrite ?app_nil_r in *.
  - destruct s as [|c s].
    { exists (rev acc), []. split; [reflexivity|]. split; [|constructor].
      exists 0%nat, []. cbn [repeat]. now rewrite ?app_nil_r in *. }
    cbn [length] in Hn. cbn [split_paras_go].
    destruct (inrun && (c =? LF)) eqn:R.
    + apply andb_true_iff in R as [-> Ec]. apply N.eqb_eq in Ec. subst c.
      rewrite (Hacc eq_refl) in E. cbn [rev app] in E.
      destruct (IH s true [] (pre ++ [LF])) as (p0 & ps & G & (k & b & W) & T);
        [lia | rewrite E; now rewrite <- ?app_assoc | reflexivity |].
      exists p0, ps. split; [exact G|]. split; [|exact T].
      exists (S k), b. rewrite W. cbn [repeat]. now rewrite <- ?app_assoc.
    + destruct s as [|d s].
      { exists (rev (c :: acc)), []. split; [reflexivity|].
        split; [|constructor]. exists 0%nat, []. cbn [repeat rev].
        rewrite E. now rewrite ?app_nil_r, <- ?app_assoc. }
      destruct ((c =? LF) && (d =? LF)) eqn:D.
      * apply andb_true_iff in D as [Ec Ed].
        apply N.eqb_eq in Ec, Ed. subst c d.
        cbn [length] in Hn.
        destruct (IH s true [] (pre ++ rev acc ++ [LF; LF]))
          as (p0 & ps & G & (k & b & W) & T);
          [lia | rewrite E; cbn [rev app]; now rewrite <- ?app_assoc
          | reflexivity |].
        exists (rev acc), (p0 :: ps). rewrite G. split; [reflexivity|].
        split.
        -- exists 0%nat, (LF :: LF :: s). cbn [repeat].
           rewrite app_nil_r. exact E.
        -- constructor; [|exact T].
           exists (pre ++ rev acc ++ LF :: repeat LF k), b.
           assert (Q : forall x : jsstring,
                      repeat LF k ++ LF :: x = LF :: repeat LF k ++ x).
           { intros x. clear. induction k as [|k IHk]; [reflexivity|].
             cbn [repeat app]. now rewrite IHk. }
           rewrite W, <- !app_assoc. cbn [app]. now rewrite Q.
      * destruct (IH (d :: s) false (c :: acc) pre)
          as (p0 & ps & G & W & T);
          [cbn [length] in *; lia
          | rewrite E; cbn [rev]; now rewrite <- ?app_assoc
          | discriminate |].
        exists p0, ps. auto.
Qed.

Lemma split_paras_pieces (w : jsstring) :
  exists p0 ps,
    split_paras w = p0 :: ps
    /\ (exists a b, w = a ++ p0 ++ b)
    /\ Forall (fun p => exists a b, w = a ++ LF :: p ++ b) ps.
Proof.
  destruct (split_paras_go_pieces w (length w) w false [] [])
    as (p0 & ps & G & (k & b & W) & T); [lia | reflexivity | discriminate |].
  exists p0, ps. split; [exact G|]. split; [|exact T]. eauto.
Qed.

Lemma filter_sub (f : jsstring -> bool) (l : list jsstring) (i : nat)
    (p : jsstring) :
  List.filter f l !! i = Some p -> In p l.
Proof.
  intros H. apply list_elem_of_lookup_2, list_elem_of_In in H.
  apply filter_In in H. tauto.
Qed.

Lemma filter_second_later (f : jsstring -> bool) (x : jsstring)
    (l : list jsstring) (p : jsstring) :
  List.filter f (x :: l) !! 1%nat = Some p -> In p l.
Proof.
  cbn [List.filter]. destruct (f x); intros H.
  - cbn in H. now apply filter_sub in H.
  - now apply filter_sub in H.
Qed.

(** ** The generated levels (C10) *)

Lemma noLF_rev (a : jsstring) : noLF (rev a) = noLF a.
Proof.
  induction a as [|c a IH]; [reflexivity|].
  cbn [rev]. rewrite noLF_app, IH. cbn. rewrite andb_true_r. apply andb_comm.
Qed.

Lemma split_runs_go_noLF (sep : N -> bool) (s : jsstring) :
  forall inrun acc,
    noLF acc = true -> noLF s = true ->
    Forall (fun p => noLF p = true) (split_runs_go sep inrun acc s).
Proof.
  induction s as [|c s IH]; intros inrun acc Ha Hs; cbn [split_runs_go].
  - constructor; [now rewrite noLF_rev | constructor].
  - cbn [noLF forallb] in Hs. apply andb_true_iff in Hs as [Hc Hs].
    destruct (sep c).
    + destruct inrun.
      * now apply IH.
      * constructor; [now rewrite noLF_rev | now apply IH].
    + apply IH; [|exact Hs]. cbn [noLF forallb]. now rewrite Hc.
Qed.

Lemma split_paras_go_noLF (s : jsstring) :
  forall acc, noLF s = true -> split_paras_go false acc s = [rev acc ++ s].
Proof.
  induction s as [|c s IH]; intros acc Hs.
  - cbn. now rewrite app_nil_r.
  - cbn [noLF forallb] in Hs. apply andb_true_iff in Hs as [Hc Hs].
    apply negb_true_iff in Hc.
    cbn [split_paras_go andb]. rewrite Hc. cbn [andb].
    destruct s as [|d s'].
    + reflexivity.
    + rewrite (IH (c :: acc) Hs). cbn [rev]. now rewrite <- app_assoc.
Qed.

Lemma orElse_nonempty (a : option jsstring) (b : jsstring) :
  b <> [] -> orElse a b <> [].
Proof. intros Hb. destruct a as [[|c r]|]; simpl; auto; discriminate. Qed.

Lemma orElse_keeps (P : jsstring -> Prop) (l : list jsstring) (i : nat)
    (b : jsstring) :
  Forall P l -> P b -> P (orElse (l !! i) b).
Proof.
  intros Hl Hb. destruct (l !! i) as [p|] eqn:E; [|exact Hb].
  pose proof (Forall_lookup_1 _ _ _ _ Hl E) as Hp.
  destruct p; [exact Hb | exact Hp].
Qed.

Lemma orElse_noLF (l : list jsstring) (i : nat) (b : jsstring) :
  Forall (fun p => noLF p = true) l -> noLF b = true ->
  noLF (orElse (l !! i) b) = true.
Proof. apply (orElse_keeps (fun p => noLF p = true)). Qed.

Lemma markerOK_parts (m : jsstring) :
  markerOK m = true ->
  m <> [] /\ noLF m = true
  /\ forallb (fun u => negb (u =? 46)) (LF :: m) = true
  /\ forallb (fun u => negb (u =? 32)) (LF :: m) = true.
Proof.
  unfold markerOK. destruct m as [|c m]; [discriminate|].
  rewrite andb_true_iff. intros [Hn H]. split; [discriminate|].
  split; [exact Hn|].
  revert H. generalize (c :: m). clear. intros l H.
  cbn [forallb]. change (negb (LF =? 46)) with true.
  change (negb (LF =? 32)) with true. cbn [andb].
  induction l as [|x l IH]; [auto|].
  cbn [forallb] in *. rewrite !andb_true_iff in *.
  destruct H as [[Ha Hb] Hl]. destruct (IH Hl). auto.
Qed.

Lemma no_occurrence_sub (pat w p : jsstring) :
  ~ occurs pat w -> (exists a b, w = a ++ p ++ b) -> ~ occurs pat p.
Proof. intros H (a & b & ->) O. apply H. now apply occurs_sub. Qed.

Lemma no_occurrence_join_stop (m x y : jsstring) :
  markerOK m = true ->
  ~ occurs (LF :: m) x -> ~ occurs (LF :: m) y ->
  ~ occurs (LF :: m) (x ++ str ". " ++ y).
Proof.
  intros Hm Hx Hy O. destruct (markerOK_parts m Hm) as (_ & _ & H46 & H32).
  change (x ++ str ". " ++ y) with (x ++ 46 :: ([] ++ 32 :: y)) in O.
  apply (occurs_app_sep _ _ _ _ H46) in O as [O | O]; [now apply Hx|].
  apply (occurs_app_sep _ _ _ _ H32) in O as [O | O]; [|now apply Hy].
  revert O. apply occurs_nil. discriminate.
Qed.

Lemma allLinesAvoid (m z : jsstring) :
  ~ occurs (LF :: m) z -> startsWith z m = false ->
  Forall (fun l => startsWith l m = false) (split_lines z).
Proof.
  intros Ho Hs. pose proof (laterLinesAvoid_of_no_occurrence m z Ho) as L.
  unfold laterLinesAvoid in L.
  destruct (split_lines_nonempty z) as (l & ls & E). rewrite E in *.
  constructor; [|exact L].
  destruct (startsWith l m) eqn:S; [|reflexivity].
  now rewrite (startsWith_first_line z l m ls E S) in Hs.
Qed.

Lemma laterLinesAvoid_join_para (m x z : jsstring) :
  m <> [] -> laterLinesAvoid m x ->
  Forall (fun l => startsWith l m = false) (split_lines z) ->
  laterLinesAvoid m (x ++ [LF; LF] ++ z).
Proof.
  intros Hm Hx Hz. unfold laterLinesAvoid in *.
  change (x ++ [LF; LF] ++ z) with (x ++ LF :: (LF :: z)).
  rewrite split_lines_app_LF.
  destruct (split_lines_nonempty x) as (l & ls & E). rewrite E in *.
  cbn [app tail] in *. apply Forall_app. split; [exact Hx|].
  change (split_lines (LF :: z)) with ([] :: split_lines z).
  constructor; [|exact Hz]. destruct m; [congruence | reflexivity].
Qed.

Lemma after_LF_not_marker (m w p : jsstring) :
  ~ occurs (LF :: m) w -> (exists a b, w = a ++ LF :: p ++ b) ->
  startsWith p m = false.
Proof.
  intros H (a & b & ->). destruct (startsWith p m) eqn:S; [|reflexivity].
  exfalso. apply H. apply startsWith_prefix in S as [r ->].
  exists a, (r ++ b). cbn [app]. now rewrite <- app_assoc.
Qed.

Lemma take_nonempty (n : nat) (s : jsstring) : s <> [] -> take (S n) s <> [].
Proof. destruct s; [congruence | discriminate]. Qed.

Lemma Forall_filter_keep (P : jsstring -> Prop) (f : jsstring -> bool)
    (l : list jsstring) :
  Forall P l -> Forall P (List.filter f l).
Proof.
  induction 1 as [|x l Hx Hl IH]; simpl; [constructor|].
  destruct (f x); [constructor|]; auto.
Qed.

(** The four generated levels: the last is empty, level 2 is the content,
    levels 0 and 1 are empty exactly for an empty content, hold no line
    feed when the content holds none, and hold no later line that starts
    with a marker when the content holds none. *)
Lemma generateLODs_shape (content : jsstring) :
  exists lod0 lod1,
    _generateLODs content
    = <[0 := lod0]> (<[1 := lod1]> (<[2 := content]> (<[3 := []]> ∅)))
    /\ (content <> [] -> lod0 <> [] /\ lod1 <> [])
    /\ (content = [] -> lod0 = [] /\ lod1 = [])
    /\ (noLF content = true -> noLF lod0 = true /\ noLF lod1 = true)
    /\ (forall m, markerOK m = true -> ~ occurs (LF :: m) content ->
         laterLinesAvoid m lod0 /\ laterLinesAvoid m lod1).
Proof.
  unfold _generateLODs. eexists; eexists. split; [reflexivity|].
  rewrite !substring_0.
  split; [|split; [|split]].
  - intros Hne. split; apply (take_nonempty 149) || apply (take_nonempty 499).
    + match goal with |- context [if ?b then _ else _] => destruct b end.
      * intros E. apply app_eq_nil in E as [E _]. revert E.
        apply orElse_nonempty, (take_nonempty 99), Hne.
      * apply orElse_nonempty, (take_nonempty 99), Hne.
    + match goal with |- context [if ?b then _ else _] => destruct b end.
      * intros E. apply app_eq_nil in E as [E _]. revert E.
        apply orElse_nonempty, (take_nonempty 499), Hne.
      * apply orElse_nonempty, (take_nonempty 499), Hne.
  - intros ->. split; reflexivity.
  - intros Hc. split; apply noLF_take.
    + assert (Hs : Forall (fun p => noLF p = true)
                     (List.filter notBlank (split_runs is_stop content))).
      { apply Forall_filter_keep. now apply split_runs_go_noLF. }
      match goal with |- context [if ?b then _ else _] => destruct b end.
      * change (str ". " ++ ?x) with ([46; 32] ++ x).
        rewrite !noLF_app, orElse_noLF by (auto using noLF_take).
        cbn [noLF forallb andb negb N.eqb].
        destruct (List.filter notBlank (split_runs is_stop content) !! 1%nat)
          as [p|] eqn:E; [|reflexivity].
        cbn [default]. exact (Forall_lookup_1 _ _ _ _ Hs E).
      * apply orElse_noLF; auto using noLF_take.
    + unfold split_paras. rewrite (split_paras_go_noLF content [] Hc).
      cbn [rev app List.filter].
      destruct (notBlank content); cbn [length Nat.ltb Nat.leb andb];
        rewrite ?andb_false_r.
      * apply orElse_noLF; auto using noLF_take.
      * apply orElse_noLF; auto using noLF_take.
  - intros m Hm Ho. destruct (markerOK_parts m Hm) as (Hne & _ & _ & _).
    assert (Ht : forall n, ~ occurs (LF :: m) (take n content)).
    { intros n O. apply Ho. eapply occurs_take; eauto. }
    split; apply laterLinesAvoid_of_no_occurrence;
      (intros O; apply occurs_take in O; revert O).
    + assert (Hs : Forall (fun p => ~ occurs (LF :: m) p)
                     (List.filter notBlank (split_runs is_stop content))).
      { apply Forall_filter_keep.
        eapply Forall_impl; [apply split_runs_sub|].
        intros p Hp. cbv beta in Hp. exact (no_occurrence_sub _ _ _ Ho Hp). }
      match goal with |- context [if ?b then _ else _] => destruct b end.
      * apply no_occurrence_join_stop; [exact Hm | |].
        -- apply (orElse_keeps (fun p => ~ occurs (LF :: m) p)); auto.
        -- destruct (List.filter notBlank (split_runs is_stop content)
                       !! 1%nat) as [p|] eqn:E.
           ++ exact (Forall_lookup_1 _ _ _ _ Hs E).
           ++ apply occurs_nil. discriminate.
      * apply (orElse_keeps (fun p => ~ occurs (LF :: m) p)); auto.
    + destruct (split_paras_pieces content) as (p0 & ps & G & H0 & Hps).
      rewrite G.
      assert (Hs : Forall (fun p => ~ occurs (LF :: m) p)
                     (List.filter notBlank (p0 :: ps))).
      { apply Forall_filter_keep. constructor.
        - exact (no_occurrence_sub _ _ _ Ho H0).
        - eapply Forall_impl; [exact Hps|].
          intros p (a & b & E). cbv beta. apply (no_occurrence_sub _ _ _ Ho).
          exists (a ++ [LF]), b. rewrite E. now rewrite <- app_assoc. }
      match goal with |- context [if ?b then _ else _] => destruct b end.
      * apply no_occurrence_of_laterLinesAvoid;
          [now destruct (markerOK_parts m Hm) as (_ & ? & _)|].
        apply laterLinesAvoid_join_para; [exact Hne | |].
        -- apply laterLinesAvoid_of_no_occurrence.
           apply (orElse_keeps (fun p => ~ occurs (LF :: m) p)); auto.
        -- destruct (List.filter notBlank (p0 :: ps) !! 1%nat)
             as [p|] eqn:E; cbn [default].
           ++ apply allLinesAvoid; [exact (Forall_lookup_1 _ _ _ _ Hs E)|].
              apply (after_LF_not_marker m content p Ho).
              apply filter_second_later in E.
              exact (proj1 (List.Forall_forall _ _) Hps p E).
           ++ constructor; [|constructor].
              destruct m; [congruence | reflexivity].
      * apply (orElse_keeps (fun p => ~ occurs (LF :: m) p)); auto.
Qed.

Lemma generated_values (a b c d : jsstring) :
  map snd (map_to_list
             (<[0 := a]> (<[1 := b]> (<[2 := c]> (<[3 := d]> ∅)))
              : gmap N (list N)))
  = [c; d; b; a].
Proof. vm_compute. reflexivity. Qed.

Lemma nonempty_eqb (v : jsstring) : v <> [] -> negb (str_eqb v []) = true.
Proof. destruct v; [congruence | reflexivity]. Qed.

(** [lod_count] of the generated levels: 3, or 0 for an empty content. *)
Lemma countLods_generated (content : jsstring) :
  _generateLODs content !! 3 = Some []
  /\ countLods (_generateLODs content)
     = match content with [] => 0%Z | _ => 3%Z end.
Proof.
  destruct (generateLODs_shape content) as (lod0 & lod1 & -> & Hne & He & _ & _).
  split; [reflexivity|].
  unfold countLods. rewrite generated_values.
  destruct content as [|c content].
  - destruct He as [-> ->]; reflexivity.
  - destruct Hne as [H0 H1]; [discriminate|].
    cbn [List.filter]. rewrite (nonempty_eqb _ H0), (nonempty_eqb _ H1).
    reflexivity.
Qed.

(** The helper is spawned only for a declared count of four or more. *)
Lemma spawnHelper_needs_four (header : Header) (taskContext : TaskContext) :
  (lod_count header < 4)%Z ->
  spawnHelper (assessRequiredLOD header taskContext) = false.
Proof.
  intros H. unfold assessRequiredLOD.
  assert (E : (lod_count header >=? 4)%Z = false).
  { destruct (Z.geb_spec (lod_count header) 4); [lia | reflexivity]. }
  rewrite E.
  assess_cases header; destruct (needsFullContext taskContext),
    (quickAssessment taskContext);
    reflexivity.
Qed.

(** C10 fails as stated: a channel with a second line writes its own
    [lod_count] and [fortune] lines into the header, and the helper is
    spawned although the levels were generated. *)
Lemma injected_header_spawns_helper :
  Options.lods injectedOptions = None
  /\ countLods (lodsOption injectedOptions) = 3%Z
  /\ exists header,
      fst (parseHeader (JStr injectedStone) newParser) = Normal header
      /\ lod_count header = 9%Z
      /\ spawnHelper (assessRequiredLOD header (mkContext false false))
         = true.
Proof.
  split; [reflexivity|]. split; [vm_compute; reflexivity|].
  eexists. split; [vm_compute; reflexivity|].
  split; vm_compute; reflexivity.
Qed.

(** C10 as amended. When no [lods] map is supplied, the generated level 3
    is empty and the count written as [lod_count] is 3, or 0 for an empty
    content.  When moreover the time stamp and the metadata strings hold
    no line feed and the header cache has no entry for the stone, the
    parsed header carries that count and [assessRequiredLOD] never asks
    for a helper. *)
Theorem generated_levels_no_helper (timestamp : jsstring) (o : Options.t)
    (st : ParserState) (taskContext : TaskContext) :
  Options.lods o = None ->
  (lodsOption o !! 3 = Some []
   /\ countLods (lodsOption o)
      = match Options.content o with [] => 0%Z | _ => 3%Z end)
  /\ (singleLineMeta timestamp o = true ->
      headerCache st !! substring 0 100 (buildStone timestamp o) = None ->
      exists header,
        fst (parseHeader (JStr (buildStone timestamp o)) st) = Normal header
        /\ lod_count header = countLods (lodsOption o)
        /\ spawnHelper (assessRequiredLOD header taskContext) = false).
Proof.
  intros Hl.
  assert (Hgen : lodsOption o = _generateLODs (Options.content o)).
  { unfold lodsOption. now rewrite Hl. }
  destruct (countLods_generated (Options.content o)) as [H3 Hn].
  rewrite Hgen. split; [split; [exact H3 | exact Hn]|].
  intros Hm Hc. eexists. split.
  - rewrite parseHeader_new;
      [ rewrite (parseHeaderFresh_buildStone _ _ Hm); reflexivity
      | apply isQAStone_buildStone
      | exact Hc ].
  - cbn [lod_count]. rewrite Hgen, Hn.
    assert (E : default 0%Z
                  (parseInt
                     (trim (of_Z match Options.content o with
                                 | [] => 0%Z | _ => 3%Z end)))
                = match Options.content o with [] => 0%Z | _ => 3%Z end).
    { destruct (Options.content o); reflexivity. }
    split; [exact E|].
    apply spawnHelper_needs_four. cbn [lod_count]. rewrite E.
    destruct (Options.content o); lia.
Qed.

Lemma generated_levels_no_helper_witness :
  (lodsOption demoOptions !! 3 = Some []
   /\ countLods (lodsOption demoOptions) = 3%Z)
  /\ exists header,
      fst (parseHeader (JStr (buildStone demoTime demoOptions)) newParser)
      = Normal header
      /\ lod_count header = countLods (lodsOption demoOptions)
      /\ spawnHelper (assessRequiredLOD header (mkContext false false))
         = false.
Proof.
  destruct (generated_levels_no_helper demoTime demoOptions newParser
              (mkContext false false) eq_refl) as [A B].
  split; [exact A | exact (B eq_refl eq_refl)].
Defined.

(** ** Level 2 of a built stone (C1) *)

Lemma generated_lookup (a b c d : jsstring) :
  let m : gmap N (list N) :=
    <[0 := a]> (<[1 := b]> (<[2 := c]> (<[3 := d]> ∅))) in
  m !! 0 = Some a /\ m !! 1 = Some b /\ m !! 2 = Some c /\ m !! 3 = Some d.
Proof. vm_compute. repeat split; reflexivity. Qed.

Lemma lodBlock_text (m : gmap N (list N)) (k : N) (text : jsstring) :
  m !! k = Some text -> text <> [] ->
  lodBlock m k
  = LF :: (str "LOD-" ++ of_Z (Z.of_N k) ++ str ": " ++ text) ++ LF :: SEP.
Proof.
  intros E Hne. unfold lodBlock, lodText. rewrite E. cbn [default].
  destruct text as [|c text]; [congruence|].
  cbn [app]. now rewrite <- !app_assoc.
Qed.

Lemma lodBlock_empty (m : gmap N (list N)) (k : N) :
  m !! k = Some [] -> lodBlock m k = [].
Proof. intros E. unfold lodBlock, lodText. now rewrite E. Qed.

Lemma scanLOD_skip (marker l : jsstring) (ls : list jsstring)
    (c : jsstring) :
  startsWith l marker = false ->
  scanLOD marker (l :: ls) c false = scanLOD marker ls c false.
Proof. intros H. cbn [scanLOD]. now rewrite H. Qed.

Lemma scanLOD_hit (marker l : jsstring) (ls : list jsstring)
    (c : jsstring) (b : bool) :
  startsWith l marker = true ->
  scanLOD marker (l :: ls) c b
  = scanLOD marker ls (trim (substringFrom (length marker) l)) true.
Proof. intros H. cbn [scanLOD]. now rewrite H. Qed.

Lemma scanLOD_stop (marker : jsstring) (ls : list jsstring) (c : jsstring) :
  startsWith SEP marker = false -> scanLOD marker (SEP :: ls) c true = c.
Proof. intros H. cbn [scanLOD]. now rewrite H. Qed.

Lemma trim_space (s : jsstring) : trim (32 :: s) = trim s.
Proof. reflexivity. Qed.

(** The text after the header when levels 0 to 2 are present and level 3
    is empty. *)
Lemma stoneTail_three (m : gmap N (list N)) (t0 t1 t2 : jsstring) :
  m !! 0 = Some t0 -> t0 <> [] ->
  m !! 1 = Some t1 -> t1 <> [] ->
  m !! 2 = Some t2 -> t2 <> [] ->
  m !! 3 = Some [] ->
  drop 1 (stoneTail m)
  = lodLine 0 t0 ++ LF :: SEP ++ LF :: lodLine 1 t1 ++ LF :: SEP
    ++ LF :: lodLine 2 t2 ++ LF :: SEP ++ LF :: CLOSE.
Proof.
  intros L0 N0 L1 N1 L2 N2 L3. unfold stoneTail.
  rewrite (lodBlock_text _ 0 _ L0 N0), (lodBlock_text _ 1 _ L1 N1),
    (lodBlock_text _ 2 _ L2 N2), (lodBlock_empty _ 3 L3).
  fold (lodLine 0 t0) (lodLine 1 t1) (lodLine 2 t2).
  cbn [app drop]. now rewrite <- !app_assoc.
Qed.

(** C1 fails as stated: the extraction trims, so a content that starts
    with a space does not come back as it went in. *)
Lemma level2_loses_padding :
  fst (extractLOD (JStr (buildStone demoTime paddedOptions)) 2 newParser)
  = Normal (JStr (str "a"))
  /\ fst (extractLOD (JStr (buildStone demoTime paddedOptions)) 2 newParser)
     <> Normal (JStr (Options.content paddedOptions)).
Proof.
  assert (E : fst (extractLOD (JStr (buildStone demoTime paddedOptions)) 2
                     newParser) = Normal (JStr (str "a")))
    by (vm_compute; reflexivity).
  split; [exact E|]. rewrite E. discriminate.
Qed.

(** ** Reading level 2 across several lines *)

Lemma scanLOD_skip_all (marker : jsstring) (ls rest : list jsstring)
    (c : jsstring) :
  Forall (fun l => startsWith l marker = false) ls ->
  scanLOD marker (ls ++ rest) c false = scanLOD marker rest c false.
Proof.
  induction 1 as [|l ls Hl _ IH]; [reflexivity|].
  cbn [app]. now rewrite scanLOD_skip.
Qed.

Lemma startsWith_shorter (l p q : jsstring) :
  startsWith l (p ++ q) = true -> startsWith l p = true.
Proof.
  intros H. apply startsWith_prefix in H as [r ->].
  rewrite <- app_assoc. apply startsWith_app.
Qed.

(** Inside a block, quiet lines are appended to what was read. *)
Lemma scanLOD_collect (q : jsstring) (ls rest : list jsstring)
    (c : jsstring) :
  forallb quietLine ls = true ->
  scanLOD (str "LOD-" ++ q) (ls ++ rest) c true
  = scanLOD (str "LOD-" ++ q) rest (c ++ flat_map (cons LF) ls) true.
Proof.
  revert c; induction ls as [|l ls IH]; intros c H.
  - cbn. now rewrite app_nil_r.
  - cbn [forallb] in H. apply andb_true_iff in H as [Hl H].
    unfold quietLine in Hl. rewrite !andb_true_iff, !negb_true_iff in Hl.
    destruct Hl as [[H1 H2] H3].
    assert (Hm : startsWith l (str "LOD-" ++ q) = false).
    { destruct (startsWith l (str "LOD-" ++ q)) eqn:S; [|reflexivity].
      apply startsWith_shorter in S. congruence. }
    cbn [app scanLOD]. rewrite Hm, H1, H2, H3. cbn [orb].
    rewrite (IH _ H). cbn [flat_map]. now rewrite <- !app_assoc.
Qed.

Lemma lodLine_lines (k : N) (t hd : jsstring) (tl : list jsstring) :
  split_lines t = hd :: tl ->
  split_lines (lodLine k t) = lodLine k hd :: tl.
Proof.
  intros E. unfold lodLine.
  rewrite !(app_assoc _ _ t), split_lines_prefix, E.
  - now rewrite <- !app_assoc.
  - now rewrite !noLF_app, of_Z_noLF.
Qed.

Lemma trimStart_head (s r : jsstring) (c : N) :
  trimStart s = c :: r -> is_ws c = false.
Proof.
  induction s as [|x s IH]; [discriminate|]. cbn [trimStart].
  destruct (is_ws x) eqn:W; [exact IH|]. now intros [= <- _].
Qed.

Lemma trimStart_app (s r R : jsstring) (c : N) :
  trimStart s = c :: r -> trimStart (s ++ R) = c :: r ++ R.
Proof.
  induction s as [|x s IH]; [discriminate|]. cbn [trimStart app].
  destruct (is_ws x); [exact IH|]. now intros [= <- <-].
Qed.

Lemma trimStart_nil (s : jsstring) :
  trimStart s = [] -> forallb is_ws s = true.
Proof.
  induction s as [|x s IH]; [reflexivity|]. cbn [trimStart forallb].
  destruct (is_ws x); [exact IH | discriminate].
Qed.

(** Trimming the first line first changes nothing when that line has no
    white space at its end, or is the only one. *)
Lemma trim_first_line (hd R : jsstring) :
  trimEnd hd = hd \/ R = [] -> trim (trim hd ++ R) = trim (hd ++ R).
Proof.
  intros [H | ->]; [|rewrite !app_nil_r; apply trim_idem].
  assert (T : trim hd = trimStart hd).
  { unfold trim. now rewrite <- trimStart_trimEnd, H. }
  rewrite T. destruct (trimStart hd) as [|c r] eqn:S.
  - apply trimStart_nil, trimEnd_nil_iff in S. rewrite H in S. now subst hd.
  - unfold trim at 2. rewrite (trimStart_app _ _ R _ S).
    unfold trim. cbn [app trimStart].
    now rewrite (trimStart_head _ _ _ S).
Qed.

Lemma laterLines_no_occurrence (content : jsstring) :
  match split_lines content with
  | _ :: ls => forallb quietLine ls = true
  | [] => True
  end ->
  ~ occurs (LF :: str "LOD-2:") content.
Proof.
  intros H. apply no_occurrence_of_laterLinesAvoid; [reflexivity|].
  unfold laterLinesAvoid.
  destruct (split_lines content) as [|l ls]; [constructor|]. cbn [tail].
  apply Forall_forall. intros x Hx. apply list_elem_of_In in Hx.
  apply (proj1 (forallb_forall _ _) H) in Hx.
  unfold quietLine in Hx. rewrite !andb_true_iff, !negb_true_iff in Hx.
  destruct Hx as [[H1 _] _].
  destruct (startsWith x (str "LOD-2:")) eqn:S; [|reflexivity].
  apply (startsWith_shorter x (str "LOD-") (str "2:")) in S. congruence.
Qed.

(** A fresh extraction of level 2 from a stone built without a [lods]
    map, from a readable content and metadata on one line each. *)
Lemma extractLODFresh_level2 (timestamp : jsstring) (o : Options.t) :
  Options.lods o = None ->
  singleLineMeta timestamp o = true ->
  readableContent (Options.content o) = true ->
  extractLODFresh (buildStone timestamp o) 2 = trim (Options.content o).
Proof.
  intros Hl Hm Hr. unfold extractLODFresh.
  rewrite (buildStone_lines _ _ Hm).
  change (str "LOD-" ++ of_Z 2 ++ [58]) with (str "LOD-2:").
  unfold stoneHeaderLines. cbn [app].
  do 9 (rewrite scanLOD_skip by reflexivity).
  assert (Hgen : lodsOption o = _generateLODs (Options.content o)).
  { unfold lodsOption. now rewrite Hl. }
  rewrite Hgen.
  destruct (generateLODs_shape (Options.content o))
    as (lod0 & lod1 & -> & Hne & He & _ & Hq).
  destruct (generated_lookup lod0 lod1 (Options.content o) [])
    as (L0 & L1 & L2 & L3).
  destruct (Options.content o) as [|c content] eqn:Ec.
  - destruct He as [-> ->]; [reflexivity|].
    unfold stoneTail.
    rewrite (lodBlock_empty _ 0 L0), (lodBlock_empty _ 1 L1),
      (lodBlock_empty _ 2 L2), (lodBlock_empty _ 3 L3).
    reflexivity.
  - assert (Nc : c :: content <> []) by discriminate.
    remember (c :: content) as text eqn:Et. clear Et Ec c content.
    destruct (Hne Nc) as [N0 N1].
    destruct (split_lines_nonempty text) as (hd & tl & Ht).
    destruct (split_lines_nonempty lod0) as (hd0 & tl0 & H0).
    destruct (split_lines_nonempty lod1) as (hd1 & tl1 & H1).
    unfold readableContent in Hr. rewrite Ht in Hr.
    apply andb_true_iff in Hr as [Hquiet Htight].
    assert (Ho : ~ occurs (LF :: str "LOD-2:") text).
    { apply laterLines_no_occurrence. now rewrite Ht. }
    destruct (Hq (str "LOD-2:") eq_refl Ho) as [Q0 Q1].
    unfold laterLinesAvoid in Q0, Q1. rewrite H0 in Q0. rewrite H1 in Q1.
    cbn [tail] in Q0, Q1.
    rewrite (stoneTail_three _ _ _ _ L0 N0 L1 N1 L2 Nc L3).
    rewrite !split_lines_app_LF.
    rewrite (lodLine_lines 0 _ _ _ H0), (lodLine_lines 1 _ _ _ H1),
      (lodLine_lines 2 _ _ _ Ht).
    change (split_lines SEP) with [SEP].
    change (split_lines CLOSE) with [CLOSE].
    cbn [app].
    rewrite scanLOD_skip by reflexivity.
    rewrite (scanLOD_skip_all _ _ _ _ Q0).
    rewrite scanLOD_skip by reflexivity.
    rewrite scanLOD_skip by reflexivity.
    rewrite (scanLOD_skip_all _ _ _ _ Q1).
    rewrite scanLOD_skip by reflexivity.
    rewrite scanLOD_hit by reflexivity.
    change (substringFrom (length (str "LOD-2:")) (lodLine 2 hd))
      with (32 :: hd).
    rewrite trim_space.
    change (str "LOD-2:") with (str "LOD-" ++ str "2:").
    rewrite (scanLOD_collect _ _ _ _ Hquiet).
    rewrite scanLOD_stop by reflexivity.
    rewrite (split_lines_join text hd tl Ht).
    apply trim_first_line.
    apply orb_true_iff in Htight as [T | T].
    + left. now apply str_eqb_eq.
    + right. destruct tl; [reflexivity | discriminate].
Qed.

(** C1 as amended. For a stone built without a [lods] map, from a time
    stamp and metadata strings that hold no line feed and from a content
    whose lines after the first neither start with "LOD-", nor are the
    separator once trimmed, nor are the close marker, and whose first
    line, when others follow, has no white space at its end; read while
    the LOD cache has no entry under the stone's key: [extractLOD] at
    level 2 returns the content with the white space at its two ends
    removed, which is the content itself when it has none there. *)
Theorem level2_is_trimmed_content (timestamp : jsstring) (o : Options.t)
    (st : ParserState) :
  Options.lods o = None ->
  singleLineMeta timestamp o = true ->
  readableContent (Options.content o) = true ->
  lodCache st !! lodKey (buildStone timestamp o) 2 = None ->
  fst (extractLOD (JStr (buildStone timestamp o)) 2 st)
  = Normal (JStr (trim (Options.content o))).
Proof.
  intros Hl Hm Hc Hk. unfold extractLOD, bind, extractLODStr.
  rewrite isQAStone_buildStone. cbn [negb]. rewrite Hk. cbn [fst ret].
  now rewrite (extractLODFresh_level2 _ _ Hl Hm Hc).
Qed.

Lemma level2_is_trimmed_content_witness :
  trim twoParagraphs = twoParagraphs
  /\ fst (extractLOD (JStr (buildStone demoTime twoParagraphOptions)) 2
            newParser)
     = Normal (JStr (trim (Options.content twoParagraphOptions))).
Proof.
  split; [reflexivity|].
  exact (level2_is_trimmed_content demoTime twoParagraphOptions newParser
           eq_refl eq_refl eq_refl eq_refl).
Defined.

(** A content on one line is readable. *)
Lemma readableContent_one_line (content : jsstring) :
  noLF content = true -> readableContent content = true.
Proof.
  intros H. unfold readableContent. rewrite (split_lines_one _ H).
  cbn [forallb andb]. apply orb_true_r.
Qed.

(** ** Token accounting (C3) *)

Lemma extractLODStr_run (s : jsstring) (k : Z) (st : ParserState) :
  isQAStone (JStr s) = true ->
  exists st',
    extractLODStr s k st = (Normal (cachedLOD st' s k), st')
    /\ lodCache st ⊆ lodCache st'
    /\ is_Some (lodCache st' !! lodKey s k).
Proof.
  intros E. unfold extractLODStr, cachedLOD. rewrite E. cbn [negb].
  destruct (lodCache st !! lodKey s k) as [r|] eqn:L.
  - exists st. rewrite L. split; [reflexivity|]. split; [reflexivity | eauto].
  - exists (mkState (<[lodKey s k := extractLODFresh s k]> (lodCache st))
              (headerCache st)).
    split; [|split].
    + cbn [lodCache]. rewrite lookup_insert_eq. reflexivity.
    + cbn [lodCache]. now apply insert_subseteq.
    + cbn [lodCache]. rewrite lookup_insert_eq. eauto.
Qed.

Lemma extractLODStr_hit (s : jsstring) (k : Z) (st : ParserState) :
  isQAStone (JStr s) = true ->
  is_Some (lodCache st !! lodKey s k) ->
  extractLODStr s k st = (Normal (cachedLOD st s k), st).
Proof.
  intros E [r L]. unfold extractLODStr, cachedLOD. rewrite E, L. reflexivity.
Qed.

Lemma cachedLOD_weaken (st st' : ParserState) (s : jsstring) (k : Z) :
  lodCache st ⊆ lodCache st' ->
  is_Some (lodCache st !! lodKey s k) ->
  cachedLOD st' s k = cachedLOD st s k.
Proof.
  intros Hsub [r L]. unfold cachedLOD.
  now rewrite (lookup_weaken _ _ _ _ L Hsub), L.
Qed.

Lemma collect_cons (val : Z -> jsstring) (k : Z) (rest : list Z) :
  collect val (k :: rest)
  = match val k with
    | [] => collect val rest
    | v => (k, v) :: collect val rest
    end.
Proof. unfold collect. cbn [flat_map]. destruct (val k); reflexivity. Qed.

(** A run of the loop: afterwards every level asked for is cached, and
    the object holds what the cache then holds. *)
Lemma extractLODsLoop_run (s : jsstring) (levels : list Z) :
  isQAStone (JStr s) = true ->
  forall st,
  exists st',
    extractLODsLoop s levels st
    = (Normal (collect (cachedLOD st' s) levels), st')
    /\ lodCache st ⊆ lodCache st'
    /\ Forall (fun k => is_Some (lodCache st' !! lodKey s k)) levels.
Proof.
  intros E. induction levels as [|k rest IH]; intros st.
  - exists st. split; [reflexivity|]. split; [reflexivity | constructor].
  - destruct (extractLODStr_run s k st E) as (st1 & R1 & S1 & K1).
    destruct (IH st1) as (st' & R' & S' & K').
    exists st'. split; [|split].
    + cbn [extractLODsLoop]. unfold bind at 1. rewrite R1.
      unfold bind at 1. rewrite R'. unfold ret.
      rewrite collect_cons, (cachedLOD_weaken st1 st' s k S' K1).
      destruct (cachedLOD st1 s k); reflexivity.
    + etransitivity; eauto.
    + constructor; [|exact K'].
      destruct K1 as [r L]. exists r. eapply lookup_weaken; eauto.
Qed.

(** The loop on levels that are all cached leaves the caches alone. *)
Lemma extractLODsLoop_hit (s : jsstring) (levels : list Z)
    (st : ParserState) :
  isQAStone (JStr s) = true ->
  Forall (fun k => is_Some (lodCache st !! lodKey s k)) levels ->
  extractLODsLoop s levels st = (Normal (collect (cachedLOD st s) levels), st).
Proof.
  intros E. induction 1 as [|k rest Hk Hrest IH]; [reflexivity|].
  cbn [extractLODsLoop]. unfold bind at 1.
  rewrite (extractLODStr_hit s k st E Hk).
  unfold bind at 1. rewrite IH. unfold ret. rewrite collect_cons.
  destruct (cachedLOD st s k); reflexivity.
Qed.

Lemma split_runs_go_length (sep : N -> bool) (s : jsstring) :
  forall inrun acc, (1 <= length (split_runs_go sep inrun acc s))%nat.
Proof.
  induction s as [|c s IH]; intros inrun acc; cbn [split_runs_go].
  - cbn. lia.
  - destruct (sep c); [destruct inrun|]; cbn [length]; auto; lia.
Qed.

Lemma split_runs_go_mono (sep : N -> bool) (x y : jsstring) :
  forall inrun acc acc',
    (length (split_runs_go sep inrun acc x)
     <= length (split_runs_go sep inrun acc' (x ++ y)))%nat.
Proof.
  induction x as [|c x IH]; intros inrun acc acc'.
  - cbn [app split_runs_go length]. apply split_runs_go_length.
  - cbn [app split_runs_go]. destruct (sep c); [destruct inrun|].
    + apply IH.
    + cbn [length]. apply le_n_S, IH.
    + apply IH.
Qed.

Lemma estimateTokens_nonneg (s : jsstring) : (0 <= estimateTokens s)%Z.
Proof.
  unfold estimateTokens. destruct s; [lia|].
  apply Z.div_pos; lia.
Qed.

(** Text appended to a string never lowers its estimate. *)
Lemma estimateTokens_mono (x y : jsstring) :
  (estimateTokens x <= estimateTokens (x ++ y))%Z.
Proof.
  destruct x as [|c x]; [apply estimateTokens_nonneg|].
  unfold estimateTokens. cbn [app].
  apply Z.div_le_mono; [lia|].
  pose proof (split_runs_go_mono is_ws (c :: x) y false [] []) as H.
  unfold split_runs. cbn [app] in H. lia.
Qed.

Lemma join_prefix (sep : jsstring) (X Y : list jsstring) :
  exists y, join sep (X ++ Y) = join sep X ++ y.
Proof.
  induction X as [|x X IH]; [eexists; reflexivity|].
  destruct X as [|x' X].
  - destruct Y as [|y0 Y].
    + exists []. cbn. now rewrite app_nil_r.
    + eexists. reflexivity.
  - destruct IH as [y Hy]. exists y.
    change (join sep ((x :: x' :: X) ++ Y))
      with (x ++ sep ++ join sep ((x' :: X) ++ Y)).
    rewrite Hy.
    change (join sep (x :: x' :: X)) with (x ++ sep ++ join sep (x' :: X)).
    now rewrite <- !app_assoc.
Qed.

Lemma collect_tokens_mono (val : Z -> jsstring) (l1 l2 : list Z) :
  (estimateTokens (joinValues (collect val l1))
   <= estimateTokens (joinValues (collect val (l1 ++ l2))))%Z.
Proof.
  unfold joinValues, collect. rewrite flat_map_app, map_app.
  destruct (join_prefix [LF; LF]
              (map snd (flat_map (fun k => match val k with
                                           | [] => []
                                           | v => [(k, v)]
                                           end) l1))
              (map snd (flat_map (fun k => match val k with
                                           | [] => []
                                           | v => [(k, v)]
                                           end) l2))) as [y ->].
  apply estimateTokens_mono.
Qed.

Lemma levelsUpTo_prefix (lvl : Z) :
  (0 <= lvl <= 3)%Z -> exists rest, levelsUpTo 3 = levelsUpTo lvl ++ rest.
Proof.
  intros H.
  assert (C : lvl = 0%Z \/ lvl = 1%Z \/ lvl = 2%Z \/ lvl = 3%Z) by lia.
  destruct C as [-> | [-> | [-> | ->]]]; eexists; reflexivity.
Qed.

Lemma savings_fields (a b c d e : Z) :
  let o : gmap string Z :=
    list_to_map
      [ ("saved", a); ("percentage", b); ("headerTokens", c);
        ("loadedTokens", d); ("fullTokens", e) ]%string in
  o !! "saved"%string = Some a /\ o !! "percentage"%string = Some b
  /\ o !! "headerTokens"%string = Some c
  /\ o !! "loadedTokens"%string = Some d
  /\ o !! "fullTokens"%string = Some e.
Proof. vm_compute. repeat split; reflexivity. Qed.

Lemma parseHeader_stone (s : jsstring) (st : ParserState) :
  isQAStone (JStr s) = true ->
  exists header st', parseHeader (JStr s) st = (Normal header, st').
Proof.
  intros E. unfold parseHeader. rewrite E. cbn [negb].
  destruct (headerCache st !! substring 0 100 s); eauto.
Qed.

(** C3 fails as stated: the loaded count includes the header's tokens and
    the full count does not, so loading every level of the task stone
    gives 30 loaded tokens against 18 full ones, and a negative saving. *)
Lemma loaded_exceeds_full :
  isQAStone (JStr demoStone) = true
  /\ exists o : gmap string Z,
      fst (getTokenSavings (JStr demoStone) 3 newParser) = Normal o
      /\ o !! "fullTokens"%string = Some 18%Z
      /\ o !! "loadedTokens"%string = Some 30%Z
      /\ o !! "headerTokens"%string = Some 12%Z
      /\ o !! "saved"%string = Some (-12)%Z
      /\ ~ (18 >= 30)%Z.
Proof.
  split; [reflexivity|].
  exists (list_to_map
            [ ("saved", -12); ("percentage", -67); ("headerTokens", 12);
              ("loadedTokens", 30); ("fullTokens", 18) ]%string%Z).
  split; [vm_compute; reflexivity|].
  repeat split; try reflexivity. lia.
Qed.

(** C3 as amended. For a stone and a loaded level from 0 to 3, in every
    state of the caches, [getTokenSavings] returns its five fields with
    [loadedTokens >= headerTokens >= 0],
    [fullTokens >= loadedTokens - headerTokens],
    [saved = fullTokens - loadedTokens], and a percentage that is
    [Math.round((saved / fullTokens) * 100)] in double precision when
    [fullTokens] is positive and 0 when it is 0. *)
Theorem token_accounting (s : jsstring) (loadedLevel : Z)
    (st : ParserState) :
  isQAStone (JStr s) = true ->
  (0 <= loadedLevel <= 3)%Z ->
  exists (o : gmap string Z) (saved percentage headerTokens loadedTokens
          fullTokens : Z),
    fst (getTokenSavings (JStr s) loadedLevel st) = Normal o
    /\ o !! "saved"%string = Some saved
    /\ o !! "percentage"%string = Some percentage
    /\ o !! "headerTokens"%string = Some headerTokens
    /\ o !! "loadedTokens"%string = Some loadedTokens
    /\ o !! "fullTokens"%string = Some fullTokens
    /\ (loadedTokens >= headerTokens)%Z
    /\ (headerTokens >= 0)%Z
    /\ (fullTokens >= loadedTokens - headerTokens)%Z
    /\ saved = (fullTokens - loadedTokens)%Z
    /\ percentage
       = (if (fullTokens >? 0)%Z then percentOf saved fullTokens else 0%Z)
    /\ (fullTokens = 0%Z -> percentage = 0%Z).
Proof.
  intros E Hl.
  destruct (parseHeader_stone s st E) as (header & st1 & P).
  destruct (extractLODsLoop_run s (levelsUpTo 3) E st1)
    as (st2 & R2 & _ & K2).
  destruct (levelsUpTo_prefix loadedLevel Hl) as [rest Hrest].
  assert (K3 : Forall (fun k => is_Some (lodCache st2 !! lodKey s k))
                 (levelsUpTo loadedLevel)).
  { rewrite Hrest in K2. now apply Forall_app in K2 as [K2 _]. }
  pose proof (extractLODsLoop_hit s _ st2 E K3) as R3.
  pose proof (collect_tokens_mono (cachedLOD st2 s) (levelsUpTo loadedLevel)
                rest) as Hmono.
  rewrite <- Hrest in Hmono.
  pose proof (estimateTokens_nonneg (raw_header header)) as Hh.
  pose proof (estimateTokens_nonneg
                (joinValues (collect (cachedLOD st2 s)
                               (levelsUpTo loadedLevel)))) as Hld.
  unfold getTokenSavings. rewrite E. cbn [negb].
  unfold bind at 1. rewrite P.
  unfold extractLODsUpTo. unfold bind at 1. rewrite R2.
  unfold bind at 1. rewrite R3. unfold ret. cbn [fst].
  set (h := estimateTokens (raw_header header)) in *.
  set (f := estimateTokens (joinValues (collect (cachedLOD st2 s)
                                          (levelsUpTo 3)))) in *.
  set (l := estimateTokens (joinValues (collect (cachedLOD st2 s)
                                          (levelsUpTo loadedLevel)))) in *.
  destruct (savings_fields (f - (l + h))
              (if (f >? 0)%Z then percentOf (f - (l + h)) f else 0%Z)
              h (l + h) f) as (F1 & F2 & F3 & F4 & F5).
  eexists. exists (f - (l + h))%Z.
  exists (if (f >? 0)%Z then percentOf (f - (l + h)) f else 0%Z).
  exists h, (l + h)%Z, f.
  split; [reflexivity|].
  split; [exact F1|]. split; [exact F2|]. split; [exact F3|].
  split; [exact F4|]. split; [exact F5|].
  repeat split; try lia.
  intros ->. reflexivity.
Qed.

Lemma token_accounting_witness :
  exists (o : gmap string Z) (saved percentage headerTokens loadedTokens
          fullTokens : Z),
    fst (getTokenSavings (JStr demoStone) 1 newParser) = Normal o
    /\ o !! "saved"%string = Some saved
    /\ o !! "percentage"%string = Some percentage
    /\ o !! "headerTokens"%string = Some headerTokens
    /\ o !! "loadedTokens"%string = Some loadedTokens
    /\ o !! "fullTokens"%string = Some fullTokens
    /\ (loadedTokens >= headerTokens)%Z
    /\ (headerTokens >= 0)%Z
    /\ (fullTokens >= loadedTokens - headerTokens)%Z
    /\ saved = (fullTokens - loadedTokens)%Z
    /\ percentage
       = (if (fullTokens >? 0)%Z then percentOf saved fullTokens else 0%Z)
    /\ (fullTokens = 0%Z -> percentage = 0%Z).
Proof.
  apply (token_accounting demoStone 1 newParser); [reflexivity | lia].
Defined.

(** The percentage is rounded from a double: for 23 tokens saved out of
    40 the quotient times 100 is 57.49999999999999, so the code returns
    57, where the exact value 57.5 rounds to 58. *)
Lemma percentage_rounds_in_double :
  exists o : gmap string Z,
    fst (getTokenSavings (JStr roundingStone) 0 newParser) = Normal o
    /\ o !! "saved"%string = Some 23%Z
    /\ o !! "fullTokens"%string = Some 40%Z
    /\ o !! "percentage"%string = Some 57%Z
    /\ ((2 * (100 * 23) + 40) / (2 * 40) = 58)%Z.
Proof.
  exists (list_to_map
            [ ("saved", 23); ("percentage", 57); ("headerTokens", 2);
              ("loadedTokens", 17); ("fullTokens", 40) ]%string%Z).
  split; [vm_compute; reflexivity|].
  repeat split; reflexivity.
Qed.

(** * Further properties of the parser *)

(** ** The border hash *)

Lemma wrap32_range (z : Z) : (- 2 ^ 31 <= wrap32 z < 2 ^ 31)%Z.
Proof.
  unfold wrap32.
  pose proof (Z.mod_pos_bound (z + 2 ^ 31) (2 ^ 32) ltac:(lia)). lia.
Qed.

Lemma hash_range (content : jsstring) (h : Z) :
  (- 2 ^ 31 <= h < 2 ^ 31)%Z ->
  (- 2 ^ 31 <= fold_left hashStep content h < 2 ^ 31)%Z.
Proof.
  revert h; induction content as [|c content IH]; intros h Hh; [exact Hh|].
  cbn [fold_left]. apply IH. unfold hashStep. apply wrap32_range.
Qed.

Lemma digitUnit_hex (d : Z) :
  (0 <= d < 16)%Z -> isLowerHex (digitUnit d) = true.
Proof.
  intros H. unfold isLowerHex, digitUnit.
  destruct (Z.ltb_spec d 10).
  - apply orb_true_iff. left. apply andb_true_iff.
    split; apply N.leb_le; lia.
  - apply orb_true_iff. right. apply andb_true_iff.
    split; apply N.leb_le; lia.
Qed.

Lemma toRadix_go_hex (fuel : nat) (n : Z) (acc : jsstring) :
  forallb isLowerHex acc = true ->
  forallb isLowerHex (toRadix_go 16 fuel n acc) = true.
Proof.
  revert n acc; induction fuel as [|fuel IH]; intros n acc H; [exact H|].
  assert (D : forallb isLowerHex (digitUnit (n mod 16) :: acc) = true).
  { cbn [forallb]. rewrite H, digitUnit_hex; [reflexivity|].
    apply Z.mod_pos_bound. lia. }
  cbn [toRadix_go]. destruct (n / 16 =? 0)%Z; [exact D | now apply IH].
Qed.

(** A number below [16 ^ k] has at most [k] digits. *)
Lemma toRadix_go_length (fuel : nat) :
  forall (k : nat) (n : Z) (acc : jsstring),
    (0 <= n < 16 ^ Z.of_nat (S k))%Z ->
    (length (toRadix_go 16 fuel n acc) <= length acc + S k)%nat.
Proof.
  induction fuel as [|fuel IH]; intros k n acc Hn; [cbn; lia|].
  cbn [toRadix_go]. destruct (Z.eqb_spec (n / 16) 0) as [E | E].
  - cbn [length]. lia.
  - destruct k as [|k].
    + exfalso. apply E. apply Z.div_small. cbn in Hn. lia.
    + specialize (IH k (n / 16)%Z (digitUnit (n mod 16) :: acc)).
      cbn [length] in IH.
      assert (0 <= n / 16 < 16 ^ Z.of_nat (S k))%Z.
      { split; [apply Z.div_pos; lia|].
        apply Z.div_lt_upper_bound; [lia|].
        rewrite <- Z.pow_succ_r by lia.
        replace (Z.succ (Z.of_nat (S k))) with (Z.of_nat (S (S k))) by lia.
        lia. }
      specialize (IH ltac:(assumption)). lia.
Qed.

Lemma forallb_take (f : N -> bool) (n : nat) (l : jsstring) :
  forallb f l = true -> forallb f (take n l) = true.
Proof.
  revert n; induction l as [|x l IH]; intros [|n]; cbn; auto.
  rewrite !andb_true_iff. intros [? ?]; auto.
Qed.

Lemma generateHash_hex (content : jsstring) :
  forallb isLowerHex (_generateHash content) = true.
Proof.
  unfold _generateHash. rewrite substring_0. apply forallb_take.
  unfold padStart. rewrite forallb_app. apply andb_true_iff. split.
  - generalize (8 - length (toHex (Z.abs (fold_left hashStep content 0%Z))))%nat.
    intros n. induction n; [reflexivity | exact IHn].
  - now apply toRadix_go_hex.
Qed.

(** X1. Whatever the content, [_generateHash] returns exactly eight
    lower-case hexadecimal digits. *)
Theorem generateHash_eight_hex (content : jsstring) :
  length (_generateHash content) = 8%nat
  /\ forallb isLowerHex (_generateHash content) = true.
Proof.
  split; [|apply generateHash_hex].
  unfold _generateHash. rewrite substring_0.
  set (h := Z.abs (fold_left hashStep content 0%Z)).
  assert (Hh : (0 <= h < 16 ^ Z.of_nat 8)%Z).
  { pose proof (hash_range content 0%Z ltac:(lia)) as R. unfold h.
    change (16 ^ Z.of_nat 8)%Z with 4294967296%Z.
    change (2 ^ 31)%Z with 2147483648%Z in R. lia. }
  assert (L : (length (toHex h) <= 8)%nat).
  { unfold toHex, toRadix.
    pose proof (toRadix_go_length (S (Z.to_nat (Z.log2 h))) 7 h [] Hh) as T.
    cbn [length] in T. lia. }
  rewrite length_take. unfold padStart.
  rewrite length_app, repeat_length. lia.
Qed.

(** ** The header read back from a built stone *)

Lemma digit_cases (c : N) :
  is_digit c = true ->
  c = 48 \/ c = 49 \/ c = 50 \/ c = 51 \/ c = 52 \/ c = 53 \/ c = 54
  \/ c = 55 \/ c = 56 \/ c = 57.
Proof.
  unfold is_digit. rewrite andb_true_iff, !N.leb_le. lia.
Qed.

Lemma digit_not_ws (c : N) : is_digit c = true -> negb (is_ws c) = true.
Proof.
  intros H. apply digit_cases in H.
  repeat (destruct H as [-> | H]; [reflexivity|]). now subst.
Qed.

Lemma parseInt_digits (c : N) (r : jsstring) :
  is_digit c = true -> parseInt (c :: r) = Some (digits_go 0%Z (c :: r)).
Proof.
  intros H. pose proof (digit_cases c H) as C.
  repeat (destruct C as [-> | C]; [reflexivity|]). now subst.
Qed.

Lemma digitUnit_digit (d : Z) :
  (0 <= d < 10)%Z ->
  is_digit (digitUnit d) = true /\ Z.of_N (digitUnit d - 48) = d.
Proof.
  intros H. unfold is_digit, digitUnit.
  destruct (Z.ltb_spec d 10); [|lia].
  split; [apply andb_true_iff; split; apply N.leb_le; lia | lia].
Qed.

(** The decimal digits written for [n] read back as [n]. *)
Lemma toRadix_go_decimal (fuel : nat) :
  forall (n : Z) (acc : jsstring),
    (0 <= n < 10 ^ Z.of_nat (S fuel))%Z ->
    exists ds,
      toRadix_go 10 (S fuel) n acc = ds ++ acc
      /\ ds <> []
      /\ forallb is_digit ds = true
      /\ forall a rest,
           digits_go a (ds ++ rest)
           = digits_go (a * 10 ^ Z.of_nat (length ds) + n)%Z rest.
Proof.
  induction fuel as [|fuel IH]; intros n acc Hn;
    cbn [toRadix_go];
    assert (Hd : (0 <= n mod 10 < 10)%Z) by (apply Z.mod_pos_bound; lia);
    destruct (digitUnit_digit _ Hd) as [D V];
    pose proof (Z.div_mod n 10 ltac:(lia)) as DM;
    destruct (Z.eqb_spec (n / 10)%Z 0%Z) as [E | E].
  1, 3: exists [digitUnit (n mod 10)]; (split; [reflexivity|]);
    (split; [discriminate|]); (split; [cbn; now rewrite D|]);
    intros a rest; cbn [app digits_go length]; rewrite D, V;
    f_equal; change (10 ^ Z.of_nat 1)%Z with 10%Z; lia.
  - exfalso. apply E. apply Z.div_small. cbn in Hn. lia.
  - assert (Hq : (0 <= n / 10 < 10 ^ Z.of_nat (S fuel))%Z).
    { split; [apply Z.div_pos; lia|].
      apply Z.div_lt_upper_bound; [lia|].
      rewrite <- Z.pow_succ_r by lia.
      replace (Z.succ (Z.of_nat (S fuel))) with (Z.of_nat (S (S fuel)))
        by lia.
      lia. }
    destruct (IH (n / 10)%Z (digitUnit (n mod 10) :: acc) Hq)
      as (ds & Eds & Hne & Hdig & Hval).
    exists (ds ++ [digitUnit (n mod 10)]).
    split; [cbn [toRadix_go] in Eds; rewrite Eds; now rewrite <- app_assoc|].
    split; [destruct ds; discriminate|].
    split; [rewrite forallb_app, Hdig; cbn; now rewrite D|].
    intros a rest. rewrite <- app_assoc. cbn [app].
    rewrite Hval. cbn [digits_go]. rewrite D, V. f_equal.
    rewrite length_app. cbn [length].
    replace (Z.of_nat (length ds + 1)) with (Z.succ (Z.of_nat (length ds)))
      by lia.
    rewrite Z.pow_succ_r by lia. lia.
Qed.

Lemma decimal_fuel (n : Z) :
  (0 <= n)%Z -> (0 <= n < 10 ^ Z.of_nat (S (Z.to_nat (Z.log2 n))))%Z.
Proof.
  intros H. split; [exact H|].
  replace (Z.of_nat (S (Z.to_nat (Z.log2 n)))) with (Z.succ (Z.log2 n))
    by (pose proof (Z.log2_nonneg n); lia).
  destruct (Z.eq_dec n 0%Z) as [-> | Hn]; [cbn; lia|].
  pose proof (Z.log2_spec n ltac:(lia)) as [_ L].
  eapply Z.lt_le_trans; [exact L|].
  apply Z.pow_le_mono_l. pose proof (Z.log2_nonneg n). lia.
Qed.

(** [parseInt] reads back the count a template literal printed. *)
Lemma parseInt_of_Z (n : Z) :
  (0 <= n)%Z -> parseInt (trim (of_Z n)) = Some n.
Proof.
  intros H. unfold of_Z. destruct (Z.ltb_spec n 0); [lia|].
  unfold toRadix.
  destruct (toRadix_go_decimal _ n [] (decimal_fuel n H))
    as (ds & Eds & Hne & Hdig & Hval).
  rewrite Eds.
  rewrite app_nil_r.
  assert (W : forallb (fun c => negb (is_ws c)) ds = true).
  { apply forallb_forall. intros x Hx. apply digit_not_ws.
    exact (proj1 (forallb_forall _ _) Hdig x Hx). }
  rewrite (trim_noWS _ W).
  destruct ds as [|c ds]; [congruence|].
  assert (Hc : is_digit c = true).
  { cbn [forallb] in Hdig. now apply andb_true_iff in Hdig as [? _]. }
  rewrite (parseInt_digits c ds Hc).
  specialize (Hval 0%Z []). rewrite app_nil_r in Hval. rewrite Hval.
  cbn [digits_go]. f_equal.
Qed.

Lemma hex_not_ws (l : jsstring) :
  forallb isLowerHex l = true -> forallb (fun c => negb (is_ws c)) l = true.
Proof.
  intros H. apply forallb_forall. intros x Hx.
  pose proof (proj1 (forallb_forall _ _) H x Hx) as Hh.
  unfold isLowerHex in Hh. rewrite orb_true_iff, !andb_true_iff, !N.leb_le in Hh.
  apply negb_true_iff. unfold is_ws.
  repeat rewrite orb_false_iff. repeat rewrite andb_false_iff.
  repeat rewrite N.leb_gt. repeat rewrite N.eqb_neq.
  repeat split; lia.
Qed.

(** X2. A stone built from a time stamp and metadata strings without line
    feed, whatever its content and whether or not the levels were
    supplied, parsed by a parser that has no cached header for it, gives
    back the hash of the content, each metadata string and the time stamp
    trimmed, the fortune trimmed, and as [lod_count] the number of
    non-empty levels. *)
Theorem header_round_trip (timestamp : jsstring) (o : Options.t)
    (st : ParserState) :
  singleLineMeta timestamp o = true ->
  headerCache st !! substring 0 100 (buildStone timestamp o) = None ->
  exists header,
    fst (parseHeader (JStr (buildStone timestamp o)) st) = Normal header
    /\ border_hash header = Some (_generateHash (Options.content o))
    /\ glow_channel header = Some (trim (channelOption o))
    /\ stone_type header = Some (trim (typeOption o))
    /\ created header = Some (trim timestamp)
    /\ source_agent header = Some (trim (agentOption o))
    /\ lod_count header = countLods (lodsOption o)
    /\ fortune header
       = Some (trim (_calculateFortune (Options.content o)
                       (channelOption o))).
Proof.
  intros Hm Hc. eexists. split.
  - rewrite parseHeader_new;
      [ rewrite (parseHeaderFresh_buildStone _ _ Hm); reflexivity
      | apply isQAStone_buildStone
      | exact Hc ].
  - cbn [border_hash glow_channel stone_type created source_agent lod_count
           fortune].
    repeat split.
    + f_equal. apply trim_noWS, hex_not_ws.
      apply generateHash_hex.
    + rewrite parseInt_of_Z; [reflexivity|]. unfold countLods. lia.
Qed.

Lemma header_round_trip_witness :
  exists header,
    fst (parseHeader (JStr (buildStone demoTime demoOptions)) newParser)
    = Normal header
    /\ border_hash header = Some (_generateHash (Options.content demoOptions))
    /\ glow_channel header = Some (trim (channelOption demoOptions))
    /\ stone_type header = Some (trim (typeOption demoOptions))
    /\ created header = Some (trim demoTime)
    /\ source_agent header = Some (trim (agentOption demoOptions))
    /\ lod_count header = countLods (lodsOption demoOptions)
    /\ fortune header
       = Some (trim (_calculateFortune (Options.content demoOptions)
                       (channelOption demoOptions))).
Proof.
  exact (header_round_trip demoTime demoOptions newParser eq_refl eq_refl).
Defined.

(** ** What the methods do to the caches *)

Lemma cachesGrow_ret {A} (a : A) : cachesGrow (ret a).
Proof. intros st. split; reflexivity. Qed.

Lemma cachesGrow_throw {A} (e : jsstring) : cachesGrow (throw (A := A) e).
Proof. intros st. split; reflexivity. Qed.

Lemma cachesGrow_bind {A B} (m : M A) (k : A -> M B) :
  cachesGrow m -> (forall a, cachesGrow (k a)) -> cachesGrow (bind m k).
Proof.
  intros Hm Hk st. unfold bind.
  destruct (Hm st) as [L1 H1].
  destruct (m st) as [[a|e] st1]; cbn [snd] in *.
  - destruct (Hk a st1) as [L2 H2]. split; etransitivity; eauto.
  - split; assumption.
Qed.

Lemma cachesGrow_parseHeader (content : jsval) :
  cachesGrow (parseHeader content).
Proof.
  intros st. unfold parseHeader.
  destruct (negb (isQAStone content)); [split; reflexivity|].
  destruct content; try (split; reflexivity).
  destruct (headerCache st !! substring 0 100 s) eqn:L;
    cbn [snd lodCache headerCache]; split; try reflexivity.
  now apply insert_subseteq.
Qed.

Lemma cachesGrow_extractLODStr (s : jsstring) (level : Z) :
  cachesGrow (extractLODStr s level).
Proof.
  intros st. unfold extractLODStr.
  destruct (negb (isQAStone (JStr s))); [split; reflexivity|].
  destruct (lodCache st !! lodKey s level) eqn:L;
    cbn [snd lodCache headerCache]; split; try reflexivity.
  now apply insert_subseteq.
Qed.

Lemma cachesGrow_extractLODsLoop (s : jsstring) (levels : list Z) :
  cachesGrow (extractLODsLoop s levels).
Proof.
  induction levels as [|k rest IH]; cbn [extractLODsLoop].
  - apply cachesGrow_ret.
  - apply cachesGrow_bind; [apply cachesGrow_extractLODStr|].
    intros a. apply cachesGrow_bind; [exact IH|].
    intros b. apply cachesGrow_ret.
Qed.

(** X3. No method other than [clearCache] removes or changes an entry of
    the two caches: after [parseHeader], [extractLOD], [extractLODsUpTo],
    [getTokenSavings] and [progressiveLoad], on any argument and whether
    the call returns or throws, each cache contains the cache it started
    from. *)
Theorem caches_only_grow :
  (forall content, cachesGrow (parseHeader content))
  /\ (forall content level, cachesGrow (extractLOD content level))
  /\ (forall s maxLevel, cachesGrow (extractLODsUpTo s maxLevel))
  /\ (forall content loadedLevel,
         cachesGrow (getTokenSavings content loadedLevel))
  /\ (forall content maxLevel, cachesGrow (progressiveLoad content maxLevel)).
Proof.
  split; [exact cachesGrow_parseHeader|].
  split.
  { intros content level. destruct content; try apply cachesGrow_ret.
    cbn [extractLOD]. apply cachesGrow_bind.
    - apply cachesGrow_extractLODStr.
    - intros a. apply cachesGrow_ret. }
  split; [intros s maxLevel; apply cachesGrow_extractLODsLoop|].
  split.
  - intros content loadedLevel. unfold getTokenSavings.
    destruct (negb (isQAStone content)); [apply cachesGrow_ret|].
    destruct content; try apply cachesGrow_throw.
    apply cachesGrow_bind; [apply cachesGrow_parseHeader|]. intros header.
    apply cachesGrow_bind; [apply cachesGrow_extractLODsLoop|]. intros all.
    apply cachesGrow_bind; [apply cachesGrow_extractLODsLoop|]. intros ld.
    apply cachesGrow_ret.
  - intros content maxLevel. unfold progressiveLoad.
    destruct (negb (isQAStone content)); [apply cachesGrow_ret|].
    destruct content; try apply cachesGrow_throw.
    apply cachesGrow_bind; [apply cachesGrow_parseHeader|]. intros header.
    apply cachesGrow_bind; [apply cachesGrow_extractLODsLoop|]. intros lods.
    apply cachesGrow_ret.
Qed.

(** ** The guard before [parseHeader] *)







(** ** Progressive loading *)

Lemma lookupLevel_collect (val : Z -> jsstring) (levels : list Z) (k : Z) :
  lookupLevel (collect val levels) k
  = if existsb (Z.eqb k) levels then truthy (val k) else None.
Proof.
  induction levels as [|a rest IH]; [reflexivity|].
  rewrite collect_cons. cbn [existsb].
  destruct (Z.eqb_spec k a) as [Heq|Hne]; cbn [orb].
  - rewrite <- Heq. destruct (val k) as [|c r] eqn:V.
    + rewrite IH. now destruct (existsb _ rest).
    + cbn [lookupLevel]. now rewrite Z.eqb_refl.
  - destruct (val a) as [|c r] eqn:V; [exact IH|].
    cbn [lookupLevel]. destruct (Z.eqb_spec a k); [congruence | exact IH].
Qed.

Lemma appendJoined_cons (acc v : jsstring) (xs : list jsstring) :
  v <> [] ->
  appendJoined acc (v :: xs)
  = appendJoined (match acc with [] => v | _ => acc ++ [LF; LF] ++ v end) xs.
Proof.
  intros Hv. destruct v as [|c r]; [congruence|].
  destruct xs as [|x xs]; [reflexivity|].
  destruct acc as [|a acc].
  - reflexivity.
  - cbn [appendJoined].
    destruct ((a :: acc) ++ [LF; LF] ++ c :: r) eqn:Q; [discriminate|].
    rewrite <- Q.
    change (join [LF; LF] ((c :: r) :: x :: xs))
      with ((c :: r) ++ [LF; LF] ++ join [LF; LF] (x :: xs)).
    now rewrite <- !app_assoc.
Qed.

(** The combining loop writes the values of the object, in order, with a
    blank line between them. *)
Lemma combine_collect (val : Z -> jsstring) (levels : list Z) :
  forall (part : list Z) (acc : jsstring),
    (forall k, In k part -> existsb (Z.eqb k) levels = true) ->
    fold_left (combineStep (collect val levels)) part acc
    = appendJoined acc (map snd (collect val part)).
Proof.
  induction part as [|k rest IH]; intros acc Hin; [reflexivity|].
  cbn [fold_left]. rewrite IH by (intros j Hj; apply Hin; now right).
  unfold combineStep. rewrite lookupLevel_collect.
  rewrite (Hin k) by now left.
  rewrite collect_cons.
  destruct (val k) as [|c r] eqn:V; [reflexivity|].
  cbn [truthy map snd]. rewrite appendJoined_cons by discriminate.
  destruct acc; reflexivity.
Qed.


(** ** The header cache *)

(** X6. The header cache is keyed by the first 100 code units: after a
    stone was parsed, parsing any stone that starts with the same 100
    code units returns the first stone's header and leaves the caches as
    they are. *)
Theorem header_cache_keyed_by_prefix (s1 s2 : jsstring) (st : ParserState) :
  isQAStone (JStr s1) = true ->
  isQAStone (JStr s2) = true ->
  substring 0 100 s1 = substring 0 100 s2 ->
  exists h st1,
    parseHeader (JStr s1) st = (Normal h, st1)
    /\ parseHeader (JStr s2) st1 = (Normal h, st1)
    /\ (headerCache st !! substring 0 100 s1 = None ->
        h = parseHeaderFresh s1).
Proof.
  intros E1 E2 K. unfold parseHeader. rewrite E1, E2. cbn [negb].
  rewrite <- K.
  destruct (headerCache st !! substring 0 100 s1) as [h|] eqn:L.
  - exists h, st. rewrite L. repeat split. discriminate.
  - eexists _, _. split; [reflexivity|]. cbn [headerCache].
    rewrite lookup_insert_eq. split; reflexivity.
Qed.

Lemma header_cache_keyed_by_prefix_witness :
  source_agent (parseHeaderFresh plannerStone) = Some (str "planner")
  /\ exists h st1,
      parseHeader (JStr demoStone) newParser = (Normal h, st1)
      /\ parseHeader (JStr plannerStone) st1 = (Normal h, st1)
      /\ (headerCache newParser !! substring 0 100 demoStone = None ->
          h = parseHeaderFresh demoStone).
Proof.
  split; [vm_compute; reflexivity|].
  apply (header_cache_keyed_by_prefix demoStone plannerStone newParser);
    vm_compute; reflexivity.
Defined.

(** ** Where the header ends *)

Lemma split_lines_joined (ls : list jsstring) (rest : jsstring) :
  forallb noLF ls = true -> ls <> [] ->
  split_lines (join [LF] ls ++ LF :: rest) = ls ++ split_lines rest
  /\ split_lines (join [LF] ls) = ls.
Proof.
  induction ls as [|l ls IH]; intros H Hne; [congruence|].
  cbn [forallb] in H. apply andb_true_iff in H as [Hl Hls].
  destruct ls as [|l' ls].
  - cbn [join app]. split; [now apply split_lines_cut|].
    now apply split_lines_one.
  - destruct (IH Hls ltac:(discriminate)) as [IH1 IH2].
    change (join [LF] (l :: l' :: ls)) with (l ++ [LF] ++ join [LF] (l' :: ls)).
    cbn [app]. split.
    + rewrite <- app_assoc. cbn [app].
      rewrite split_lines_cut by exact Hl. now rewrite IH1.
    + rewrite split_lines_cut by exact Hl. now rewrite IH2.
Qed.

Lemma scanHeader_lines (pre : list jsstring) :
  forall (more : list jsstring) (i : nat) (h : Header),
    forallb (fun l => negb (str_eqb (trim l) SEP)) pre = true ->
    scanHeader (pre ++ more) i h
    = scanHeader more (i + length pre) (headerLines pre h).
Proof.
  induction pre as [|l pre IH]; intros more i h H.
  - cbn [app length headerLines fold_left]. now rewrite Nat.add_0_r.
  - cbn [forallb] in H. apply andb_true_iff in H as [Hl Hpre].
    cbn [app scanHeader]. apply negb_true_iff in Hl. rewrite Hl.
    rewrite IH by exact Hpre. cbn [length headerLines fold_left].
    now rewrite Nat.add_succ_r.
Qed.

Lemma scanHeader_index (ls : list jsstring) :
  forall (i : nat) (h : Header),
    snd (scanHeader ls i h) = 0%nat
    \/ (i <= snd (scanHeader ls i h) < i + length ls)%nat.
Proof.
  induction ls as [|l ls IH]; intros i h; cbn [scanHeader].
  - now left.
  - destruct (str_eqb (trim l) SEP).
    + right. cbn [snd length]. lia.
    + destruct (IH (S i) (headerLine h (trim l))) as [-> | B];
        [now left | right]. cbn [length]. lia.
Qed.

Lemma fieldLine_parts (pre : list jsstring) :
  forallb fieldLine pre = true ->
  forallb noLF pre = true
  /\ forallb (fun l => negb (str_eqb (trim l) SEP)) pre = true.
Proof.
  induction pre as [|l pre IH]; [now split|].
  cbn [forallb]. unfold fieldLine at 1.
  rewrite !andb_true_iff. intros [[A B] C].
  destruct (IH C). now repeat split.
Qed.

(** X7. The header ends at the first separator line: when a text starts
    with fewer than fifteen lines that are not separators and then a line
    that trims to the separator, whatever follows that line has no effect
    on the parsed header, and [raw_header] is the text up to and including
    that line. *)
Theorem header_ends_at_separator (pre : list jsstring)
    (sepLine rest : jsstring) :
  forallb fieldLine pre = true ->
  noLF sepLine = true ->
  str_eqb (trim sepLine) SEP = true ->
  (length pre < 15)%nat ->
  parseHeaderFresh (join [LF] (pre ++ [sepLine]) ++ LF :: rest)
  = parseHeaderFresh (join [LF] (pre ++ [sepLine]))
  /\ raw_header (parseHeaderFresh (join [LF] (pre ++ [sepLine]) ++ LF :: rest))
     = join [LF] (pre ++ [sepLine]).
Proof.
  intros Hpre Hs Hsep Hlen.
  destruct (fieldLine_parts pre Hpre) as [Hno Hfield].
  assert (Hall : forallb noLF (pre ++ [sepLine]) = true).
  { rewrite forallb_app, Hno. cbn. now rewrite Hs. }
  assert (Hne : pre ++ [sepLine] <> []) by (destruct pre; discriminate).
  destruct (split_lines_joined _ rest Hall Hne) as [L1 L2].
  assert (S1 : forall X,
             scanHeader (take 15 ((pre ++ [sepLine]) ++ X)) 0 emptyHeader
             = (headerLines pre emptyHeader, length pre)).
  { intros X. rewrite <- app_assoc. cbn [app].
    rewrite take_app_ge by lia.
    destruct (15 - length pre)%nat as [|n] eqn:Q; [lia|].
    cbn [take]. rewrite scanHeader_lines by exact Hfield.
    cbn [scanHeader]. now rewrite Hsep. }
  assert (T1 : forall X,
             take (length pre + 1) ((pre ++ [sepLine]) ++ X)
             = pre ++ [sepLine]).
  { intros X. rewrite take_app_le by (rewrite length_app; cbn; lia).
    apply take_ge. rewrite length_app. cbn. lia. }
  assert (F1 : parseHeaderFresh (join [LF] (pre ++ [sepLine]) ++ LF :: rest)
               = mkHeader
                   (border_hash (headerLines pre emptyHeader))
                   (glow_channel (headerLines pre emptyHeader))
                   (stone_type (headerLines pre emptyHeader))
                   (created (headerLines pre emptyHeader))
                   (source_agent (headerLines pre emptyHeader))
                   (lod_count (headerLines pre emptyHeader))
                   (fortune (headerLines pre emptyHeader))
                   (join [LF] (pre ++ [sepLine]))).
  { unfold parseHeaderFresh. rewrite L1, S1. cbv beta iota.
    rewrite T1. reflexivity. }
  assert (F2 : parseHeaderFresh (join [LF] (pre ++ [sepLine]))
               = mkHeader
                   (border_hash (headerLines pre emptyHeader))
                   (glow_channel (headerLines pre emptyHeader))
                   (stone_type (headerLines pre emptyHeader))
                   (created (headerLines pre emptyHeader))
                   (source_agent (headerLines pre emptyHeader))
                   (lod_count (headerLines pre emptyHeader))
                   (fortune (headerLines pre emptyHeader))
                   (join [LF] (pre ++ [sepLine]))).
  { unfold parseHeaderFresh. rewrite L2.
    rewrite <- (app_nil_r (pre ++ [sepLine])) at 1.
    rewrite S1. cbv beta iota.
    rewrite <- (app_nil_r (pre ++ [sepLine])) at 1.
    rewrite T1. reflexivity. }
  rewrite F1, F2. split; reflexivity.
Qed.

Lemma header_ends_at_separator_witness :
  parseHeaderFresh
    (join [LF] ([OPEN; str "glow_channel: task"] ++ [SEP])
     ++ LF :: str "fortune: task:api:complex")
  = parseHeaderFresh (join [LF] ([OPEN; str "glow_channel: task"] ++ [SEP]))
  /\ raw_header
       (parseHeaderFresh
          (join [LF] ([OPEN; str "glow_channel: task"] ++ [SEP])
           ++ LF :: str "fortune: task:api:complex"))
     = join [LF] ([OPEN; str "glow_channel: task"] ++ [SEP]).
Proof.
  apply (header_ends_at_separator [OPEN; str "glow_channel: task"] SEP
           (str "fortune: task:api:complex"));
    [reflexivity | reflexivity | reflexivity | vm_compute; lia].
Defined.

(** X8. Only the first fifteen lines are read: two texts whose first
    fifteen lines are the same give the same header, [raw_header]
    included. *)
Theorem header_reads_fifteen_lines (s1 s2 : jsstring) :
  take 15 (split_lines s1) = take 15 (split_lines s2) ->
  parseHeaderFresh s1 = parseHeaderFresh s2.
Proof.
  intros H. unfold parseHeaderFresh. rewrite <- H.
  pose proof (scanHeader_index (take 15 (split_lines s1)) 0 emptyHeader) as B.
  destruct (scanHeader (take 15 (split_lines s1)) 0 emptyHeader) as [h j].
  cbn [snd] in B. f_equal. f_equal.
  assert (J : Nat.min (j + 1) 15 = (j + 1)%nat).
  { destruct B as [-> | B]; [reflexivity|].
    rewrite length_take in B. lia. }
  rewrite <- J, <- !take_take. now rewrite H.
Qed.

Lemma header_reads_fifteen_lines_witness :
  fortune (parseHeaderFresh (lateField "task:api:complex")) = None
  /\ parseHeaderFresh (lateField "task:api:complex")
     = parseHeaderFresh (lateField "query:ui:simple").
Proof.
  split; [vm_compute; reflexivity|].
  apply (header_reads_fifteen_lines (lateField "task:api:complex")
           (lateField "query:ui:simple")).
  vm_compute. reflexivity.
Defined.

(** X9. Without a separator line among the first fifteen lines the
    fields are still read from those lines, but [headerEndIndex] stays 0
    and [raw_header] is the first line alone. *)
Theorem raw_header_without_separator (s : jsstring) :
  forallb (fun l => negb (str_eqb (trim l) SEP)) (take 15 (split_lines s))
  = true ->
  parseHeaderFresh s
  = let h := headerLines (take 15 (split_lines s)) emptyHeader in
    mkHeader (border_hash h) (glow_channel h) (stone_type h) (created h)
      (source_agent h) (lod_count h) (fortune h) (hd [] (split_lines s)).
Proof.
  intros H. unfold parseHeaderFresh.
  rewrite <- (app_nil_r (take 15 (split_lines s))) at 1.
  rewrite scanHeader_lines by exact H.
  cbn [scanHeader]. cbv beta iota zeta. f_equal.
  destruct (split_lines_nonempty s) as (l & ls & ->). reflexivity.
Qed.

Lemma raw_header_without_separator_witness :
  glow_channel (parseHeaderFresh openStone) = Some (str "task")
  /\ raw_header (parseHeaderFresh openStone) = OPEN
  /\ parseHeaderFresh openStone
     = let h := headerLines (take 15 (split_lines openStone)) emptyHeader in
       mkHeader (border_hash h) (glow_channel h) (stone_type h) (created h)
         (source_agent h) (lod_count h) (fortune h)
         (hd [] (split_lines openStone)).
Proof.
  split; [vm_compute; reflexivity|]. split; [vm_compute; reflexivity|].
  apply (raw_header_without_separator openStone). vm_compute. reflexivity.
Defined.
(** ** The fortune written and read back *)

Lemma split_on_cut (d : N) (a b : jsstring) :
  forallb (fun c => negb (c =? d)) a = true ->
  split_on d (a ++ d :: b) = a :: split_on d b.
Proof.
  induction a as [|c a IH]; intros H.
  - cbn [app split_on]. now rewrite N.eqb_refl.
  - cbn [forallb] in H. apply andb_true_iff in H as [Hc Ha].
    cbn [app split_on]. apply negb_true_iff in Hc. rewrite Hc.
    now rewrite IH.
Qed.

Lemma split_on_one (d : N) (a : jsstring) :
  forallb (fun c => negb (c =? d)) a = true -> split_on d a = [a].
Proof.
  induction a as [|c a IH]; intros H; [reflexivity|].
  cbn [forallb] in H. apply andb_true_iff in H as [Hc Ha].
  cbn [split_on]. apply negb_true_iff in Hc. rewrite Hc.
  now rewrite IH.
Qed.

Lemma parseFortune_three (a b c : jsstring) :
  noColon a = true -> noColon b = true -> noColon c = true ->
  parseFortune (Some (a ++ 58 :: b ++ 58 :: c))
  = mkFortune (truthy a) (truthy b) (truthy c).
Proof.
  intros Ha Hb Hc.
  assert (P : split_on 58 (a ++ 58 :: b ++ 58 :: c) = [a; b; c]).
  { rewrite split_on_cut by exact Ha. rewrite split_on_cut by exact Hb.
    now rewrite split_on_one by exact Hc. }
  unfold parseFortune.
  destruct (a ++ 58 :: b ++ 58 :: c) eqn:Q; [now destruct a|].
  rewrite P. unfold partOrNull. cbn.
  destruct a, b, c; reflexivity.
Qed.

Lemma calculateFortune_parts (content channel : jsstring) :
  exists category complexity,
    _calculateFortune content channel
    = channel ++ 58 :: category ++ 58 :: complexity
    /\ In category categories
    /\ complexity
       = (if (200 <? wordCount content)%nat then str "complex"
          else if (50 <? wordCount content)%nat then str "medium"
          else str "simple").
Proof.
  unfold _calculateFortune, wordCount, categories.
  eexists _, _. split; [reflexivity|]. split; [|reflexivity].
  cbn [map In].
  repeat match goal with
         | |- context [if testWords ?l ?s then _ else _] =>
             destruct (testWords l s)
         end; tauto.
Qed.

Lemma category_plain (category : jsstring) :
  In category categories ->
  noColon category = true /\ truthy category = Some category.
Proof.
  unfold categories. cbn [map In].
  intros [<-|[<-|[<-|[<-|[<-|[<-|[]]]]]]]; split; reflexivity.
Qed.

Lemma complexity_plain (n : nat) :
  let complexity :=
    if (200 <? n)%nat then str "complex"
    else if (50 <? n)%nat then str "medium"
    else str "simple" in
  noColon complexity = true /\ truthy complexity = Some complexity
  /\ exists r x, complexity = r ++ [x] /\ is_ws x = false.
Proof.
  cbv zeta. destruct (200 <? n)%nat; [|destruct (50 <? n)%nat].
  - repeat split; try reflexivity. now exists (str "comple"), 120.
  - repeat split; try reflexivity. now exists (str "mediu"), 109.
  - repeat split; try reflexivity. now exists (str "simpl"), 101.
Qed.

(** X10. [parseFortune] reads back what [_calculateFortune] wrote, when
    the channel has no colon: the channel (or [null] for the empty
    channel), one of the six categories, and the complexity that the
    number of words of the content sets, "complex" above 200 words,
    "medium" above 50 and "simple" otherwise. *)
Theorem fortune_round_trip (content channel : jsstring) :
  noColon channel = true ->
  exists category,
    In category categories
    /\ parseFortune (Some (_calculateFortune content channel))
       = mkFortune (truthy channel) (Some category)
           (Some (if (200 <? wordCount content)%nat then str "complex"
                  else if (50 <? wordCount content)%nat then str "medium"
                  else str "simple")).
Proof.
  intros Hc.
  destruct (calculateFortune_parts content channel)
    as (category & complexity & -> & Hcat & ->).
  destruct (category_plain category Hcat) as [C1 C2].
  destruct (complexity_plain (wordCount content)) as (X1 & X2 & _).
  exists category. split; [exact Hcat|].
  rewrite parseFortune_three by assumption. now rewrite C2, X2.
Qed.

Lemma fortune_round_trip_witness :
  exists category,
    In category categories
    /\ parseFortune (Some (_calculateFortune demoContent (str "task")))
       = mkFortune (truthy (str "task")) (Some category)
           (Some (if (200 <? wordCount demoContent)%nat then str "complex"
                  else if (50 <? wordCount demoContent)%nat then str "medium"
                  else str "simple")).
Proof.
  exact (fortune_round_trip demoContent (str "task") eq_refl).
Defined.

(** ** The level assessed for a built stone *)

Lemma trimStart_keep (a b : jsstring) (c : N) :
  is_ws c = false -> trimStart (a ++ c :: b) = trimStart a ++ c :: b.
Proof.
  intros Hc. induction a as [|x a IH]; cbn [app trimStart].
  - now rewrite Hc.
  - destruct (is_ws x); [exact IH | reflexivity].
Qed.

Lemma noColon_trimStart (a : jsstring) :
  noColon a = true -> noColon (trimStart a) = true.
Proof.
  induction a as [|x a IH]; intros H; [reflexivity|].
  cbn [trimStart]. destruct (is_ws x); [|exact H].
  apply IH. cbn in H. now apply andb_true_iff in H as [_ H].
Qed.

Lemma built_fortune (content channel : jsstring) :
  noColon channel = true ->
  exists category,
    In category categories
    /\ parseFortune (Some (trim (_calculateFortune content channel)))
       = mkFortune (truthy (trimStart channel)) (Some category)
           (Some (if (200 <? wordCount content)%nat then str "complex"
                  else if (50 <? wordCount content)%nat then str "medium"
                  else str "simple")).
Proof.
  intros Hc.
  destruct (calculateFortune_parts content channel)
    as (category & complexity & -> & Hcat & ->).
  destruct (category_plain category Hcat) as [C1 C2].
  destruct (complexity_plain (wordCount content))
    as (X1 & X2 & r & x & Q & Hx).
  exists category. split; [exact Hcat|].
  assert (T : trim (channel ++ 58 :: category ++ 58 ::
                      (if (200 <? wordCount content)%nat then str "complex"
                       else if (50 <? wordCount content)%nat then str "medium"
                       else str "simple"))
              = trimStart channel ++ 58 :: category ++ 58 ::
                  (if (200 <? wordCount content)%nat then str "complex"
                   else if (50 <? wordCount content)%nat then str "medium"
                   else str "simple")).
  { unfold trim. rewrite trimStart_keep by reflexivity.
    rewrite Q.
    replace (trimStart channel ++ 58 :: category ++ 58 :: r ++ [x])
      with ((trimStart channel ++ 58 :: category ++ 58 :: r) ++ x :: [])
      by (rewrite <- !app_assoc; cbn [app]; rewrite <- !app_assoc;
          reflexivity).
    now rewrite trimEnd_keep by exact Hx. }
  rewrite T, parseFortune_three;
    [now rewrite C2, X2 | now apply noColon_trimStart | exact C1 | exact X1].
Qed.

Lemma inheritedKey_channelOf (h : Header) (c : jsstring) :
  glow_channel h = Some c -> inheritedKey c = false ->
  inheritedKey (channelOf h) = false.
Proof.
  intros G I. unfold channelOf. rewrite G. destruct c; [reflexivity | exact I].
Qed.

(** X11. The level a stone earns by its size. For a stone built with a
    time stamp and metadata on one line each and a channel without colon
    that is not the name of a member of [Object.prototype], parsed on a
    cache miss and assessed with the default task context: a content of
    at most 50 words gives level 0 and a content of more than 200 words
    gives level 2, whatever the channel and the stone type. *)
Theorem built_stone_level_by_size (timestamp : jsstring) (o : Options.t)
    (st : ParserState) :
  singleLineMeta timestamp o = true ->
  noColon (channelOption o) = true ->
  inheritedKey (trim (channelOption o)) = false ->
  headerCache st !! substring 0 100 (buildStone timestamp o) = None ->
  exists header,
    fst (parseHeader (JStr (buildStone timestamp o)) st) = Normal header
    /\ ((wordCount (Options.content o) <= 50)%nat ->
        level (assessRequiredLOD header (mkContext false false)) = Lvl 0)
    /\ ((200 < wordCount (Options.content o))%nat ->
        level (assessRequiredLOD header (mkContext false false)) = Lvl 2).
Proof.
  intros Hm Hc Hi Hmiss.
  exists (parseHeaderFresh (buildStone timestamp o)).
  split; [apply parseHeader_new; [apply isQAStone_buildStone | exact Hmiss]|].
  rewrite (parseHeaderFresh_buildStone _ _ Hm).
  set (header := mkHeader _ _ _ _ _ _ _ _).
  assert (I : inheritedKey (channelOf header) = false)
    by (now apply (inheritedKey_channelOf header (trim (channelOption o)))).
  destruct (rulesDefaultLod_range _ I) as (n & Hn & Hr).
  destruct (built_fortune (Options.content o) (channelOption o) Hc)
    as (category & _ & F).
  assert (A1 : is_str (f_complexity (parseFortune (fortune header))) "simple"
               = true ->
               level (assessRequiredLOD header (mkContext false false))
               = Lvl 0).
  { intros E1. unfold assessRequiredLOD.
    fold (channelOf header). rewrite Hn, E1.
    destruct (is_str (stone_type header) "handoff");
      cbn [needsFullContext quickAssessment mathMin mathMax level negb andb];
      f_equal; lia. }
  assert (A2 : is_str (f_complexity (parseFortune (fortune header))) "simple"
               = false ->
               is_str (f_complexity (parseFortune (fortune header))) "complex"
               = true ->
               level (assessRequiredLOD header (mkContext false false))
               = Lvl 2).
  { intros E1 E2. unfold assessRequiredLOD.
    fold (channelOf header). rewrite Hn, E1, E2.
    destruct (lod_count header >=? 4)%Z,
      (is_str (stone_type header) "handoff");
      cbn [needsFullContext quickAssessment mathMin mathMax level negb andb];
      f_equal; lia. }
  split; intros Hw; [apply A1 | apply A2];
    cbn [fortune header]; rewrite F; cbn [f_complexity];
    destruct (Nat.ltb_spec 200 (wordCount (Options.content o))); try lia;
    destruct (Nat.ltb_spec 50 (wordCount (Options.content o))); try lia;
    reflexivity.
Qed.

Lemma built_stone_level_by_size_witness :
  (200 < wordCount (Options.content longOptions))%nat
  /\ exists header,
      fst (parseHeader (JStr (buildStone demoTime longOptions)) newParser)
      = Normal header
      /\ ((wordCount (Options.content longOptions) <= 50)%nat ->
          level (assessRequiredLOD header (mkContext false false)) = Lvl 0)
      /\ ((200 < wordCount (Options.content longOptions))%nat ->
          level (assessRequiredLOD header (mkContext false false)) = Lvl 2).
Proof.
  split; [vm_compute; lia|].
  apply (built_stone_level_by_size demoTime longOptions newParser);
    vm_compute; reflexivity.
Defined.

(** X12. In quick assessment mode the level does not depend on the
    channel, on [needsFullContext] or on the number of levels: it is 1 for
    a handoff stone whose fortune is not "simple" and 0 otherwise, also
    for a channel whose rules have no default level. *)
Theorem quick_assessment_level (header : Header) (needsFull : bool) :
  level (assessRequiredLOD header (mkContext needsFull true))
  = if is_str (stone_type header) "handoff"
       && negb (is_str (f_complexity (parseFortune (fortune header))) "simple")
    then Lvl 1
    else Lvl 0.
Proof.
  unfold assessRequiredLOD. assess_cases header; destruct needsFull;
    reflexivity.
Qed.
(** ** The saving at the two ends of the scale *)

Lemma levelsUpTo_negative (lvl : Z) : (lvl < 0)%Z -> levelsUpTo lvl = [].
Proof.
  intros H. unfold levelsUpTo.
  replace (Z.to_nat (lvl + 1)) with 0%nat by lia. reflexivity.
Qed.

(** X13. Loading every level never saves: on any stone and in any state
    of the caches, [getTokenSavings] at level 3 reports
    [loadedTokens = fullTokens + headerTokens] and
    [saved = -headerTokens]; at a negative level, where no level is
    loaded, it reports [loadedTokens = headerTokens] and
    [saved = fullTokens - headerTokens]. *)
Theorem savings_at_the_ends (s : jsstring) (st : ParserState) :
  isQAStone (JStr s) = true ->
  (exists (o : gmap string Z) (headerTokens fullTokens : Z),
      fst (getTokenSavings (JStr s) 3 st) = Normal o
      /\ o !! "headerTokens"%string = Some headerTokens
      /\ o !! "fullTokens"%string = Some fullTokens
      /\ o !! "loadedTokens"%string = Some (fullTokens + headerTokens)%Z
      /\ o !! "saved"%string = Some (- headerTokens)%Z
      /\ (0 <= headerTokens)%Z)
  /\ (forall loadedLevel, (loadedLevel < 0)%Z ->
      exists (o : gmap string Z) (headerTokens fullTokens : Z),
        fst (getTokenSavings (JStr s) loadedLevel st) = Normal o
        /\ o !! "headerTokens"%string = Some headerTokens
        /\ o !! "fullTokens"%string = Some fullTokens
        /\ o !! "loadedTokens"%string = Some headerTokens
        /\ o !! "saved"%string = Some (fullTokens - headerTokens)%Z).
Proof.
  intros E.
  destruct (parseHeader_stone s st E) as (header & st1 & P).
  destruct (extractLODsLoop_run s (levelsUpTo 3) E st1)
    as (st2 & R2 & _ & K2).
  pose proof (extractLODsLoop_hit s _ st2 E K2) as R3.
  set (h := estimateTokens (raw_header header)).
  set (f := estimateTokens (joinValues (collect (cachedLOD st2 s)
                                          (levelsUpTo 3)))).
  split.
  - destruct (savings_fields (f - (f + h))
                (if (f >? 0)%Z then percentOf (f - (f + h)) f else 0%Z)
                h (f + h) f) as (F1 & F2 & F3 & F4 & F5).
    eexists _, h, f. split.
    + unfold getTokenSavings. rewrite E. cbn [negb].
      unfold bind at 1. rewrite P.
      unfold extractLODsUpTo. unfold bind at 1. rewrite R2.
      unfold bind at 1. rewrite R3. unfold ret. cbn [fst]. reflexivity.
    + fold h f. split; [exact F3|]. split; [exact F5|]. split; [exact F4|].
      split; [|apply estimateTokens_nonneg].
      rewrite F1. f_equal; lia.
  - intros loadedLevel Hneg.
    destruct (savings_fields (f - (0 + h))
                (if (f >? 0)%Z then percentOf (f - (0 + h)) f else 0%Z)
                h (0 + h) f) as (F1 & F2 & F3 & F4 & F5).
    eexists _, h, f. split.
    + unfold getTokenSavings. rewrite E. cbn [negb].
      unfold bind at 1. rewrite P.
      unfold extractLODsUpTo. unfold bind at 1. rewrite R2.
      rewrite (levelsUpTo_negative _ Hneg). cbn [extractLODsLoop].
      unfold bind, ret. cbn [fst]. reflexivity.
    + change (estimateTokens (joinValues [])) with 0%Z. fold h f.
      split; [exact F3|]. split; [exact F5|].
      split; [rewrite F4; f_equal; lia|].
      rewrite F1. f_equal; lia.
Qed.

Lemma savings_at_the_ends_witness :
  (exists (o : gmap string Z) (headerTokens fullTokens : Z),
      fst (getTokenSavings (JStr demoStone) 3 newParser) = Normal o
      /\ o !! "headerTokens"%string = Some headerTokens
      /\ o !! "fullTokens"%string = Some fullTokens
      /\ o !! "loadedTokens"%string = Some (fullTokens + headerTokens)%Z
      /\ o !! "saved"%string = Some (- headerTokens)%Z
      /\ (0 <= headerTokens)%Z)
  /\ (forall loadedLevel, (loadedLevel < 0)%Z ->
      exists (o : gmap string Z) (headerTokens fullTokens : Z),
        fst (getTokenSavings (JStr demoStone) loadedLevel newParser)
        = Normal o
        /\ o !! "headerTokens"%string = Some headerTokens
        /\ o !! "fullTokens"%string = Some fullTokens
        /\ o !! "loadedTokens"%string = Some headerTokens
        /\ o !! "saved"%string = Some (fullTokens - headerTokens)%Z).
Proof.
  apply (savings_at_the_ends demoStone newParser). vm_compute. reflexivity.
Defined.

(** ** Levels of a text that is not a stone *)



(** ** Supplied levels read back *)

Lemma lodLine_noLF (k : N) (text : jsstring) :
  noLF text = true -> noLF (lodLine k text) = true.
Proof.
  intros H. unfold lodLine. rewrite !noLF_app, of_Z_noLF, H. reflexivity.
Qed.

Lemma lodBlock_lines (m : gmap N (list N)) (k : N) (T : jsstring) :
  noLF (lodText m k) = true ->
  split_lines (drop 1 (lodBlock m k ++ LF :: T))
  = blockLines m k ++ split_lines T
  /\ exists T', lodBlock m k ++ LF :: T = LF :: T'.
Proof.
  intros H. unfold lodBlock, blockLines.
  destruct (lodText m k) as [|c r] eqn:Q.
  - cbn [app drop]. split; [reflexivity | eauto].
  - split; [|cbn [app]; eauto].
    change (([LF] ++ str "LOD-" ++ of_Z (Z.of_N k) ++ str ": " ++ (c :: r)
             ++ [LF] ++ SEP) ++ LF :: T)
      with (LF :: (str "LOD-" ++ of_Z (Z.of_N k) ++ str ": " ++ (c :: r)
                   ++ [LF] ++ SEP) ++ LF :: T).
    cbn [drop].
    replace ((str "LOD-" ++ of_Z (Z.of_N k) ++ str ": " ++ (c :: r)
              ++ [LF] ++ SEP) ++ LF :: T)
      with (lodLine k (c :: r) ++ LF :: SEP ++ LF :: T)
      by (unfold lodLine; rewrite <- !app_assoc; reflexivity).
    rewrite drop_0.
    rewrite split_lines_cut by (now apply lodLine_noLF).
    now rewrite split_lines_cut by reflexivity.
Qed.

Lemma stoneTail_lines (m : gmap N (list N)) :
  singleLineLevels m = true ->
  split_lines (drop 1 (stoneTail m))
  = blockLines m 0 ++ blockLines m 1 ++ blockLines m 2 ++ blockLines m 3
    ++ [CLOSE].
Proof.
  unfold singleLineLevels. cbn [forallb]. rewrite !andb_true_iff.
  intros (H0 & H1 & H2 & H3 & _). unfold stoneTail.
  destruct (lodBlock_lines m 3 CLOSE H3) as [L3 [T3 E3]].
  change (lodBlock m 3 ++ [LF] ++ CLOSE) with (lodBlock m 3 ++ LF :: CLOSE).
  rewrite E3.
  destruct (lodBlock_lines m 2 T3 H2) as [L2 [T2 E2]]. rewrite E2.
  destruct (lodBlock_lines m 1 T2 H1) as [L1 [T1 E1]]. rewrite E1.
  destruct (lodBlock_lines m 0 T1 H0) as [L0 _]. rewrite L0.
  f_equal.
  replace (split_lines T1) with (split_lines (drop 1 (LF :: T1)))
    by reflexivity.
  rewrite <- E1, L1. f_equal.
  replace (split_lines T2) with (split_lines (drop 1 (LF :: T2)))
    by reflexivity.
  rewrite <- E2, L2. f_equal.
  replace (split_lines T3) with (split_lines (drop 1 (LF :: T3)))
    by reflexivity.
  rewrite <- E3, L3. reflexivity.
Qed.

Lemma level_cases (k : N) : k <= 3 -> k = 0 \/ k = 1 \/ k = 2 \/ k = 3.
Proof. lia. Qed.

Lemma lodMarker_other (j k : N) (text : jsstring) :
  j <= 3 -> k <= 3 -> j <> k ->
  startsWith (lodLine j text) (lodMarker k) = false.
Proof.
  intros Hj Hk Hne.
  destruct (level_cases j Hj) as [->|[->|[->| ->]]];
    destruct (level_cases k Hk) as [->|[->|[->| ->]]];
    try congruence; reflexivity.
Qed.

Lemma lodMarker_self (k : N) (text : jsstring) :
  k <= 3 ->
  startsWith (lodLine k text) (lodMarker k) = true
  /\ substringFrom (length (lodMarker k)) (lodLine k text) = 32 :: text.
Proof.
  intros Hk.
  destruct (level_cases k Hk) as [->|[->|[->| ->]]]; split; reflexivity.
Qed.

Lemma blockLines_other (m : gmap N (list N)) (j k : N) :
  j <= 3 -> k <= 3 -> j <> k ->
  Forall (fun l => startsWith l (lodMarker k) = false) (blockLines m j).
Proof.
  intros Hj Hk Hne. unfold blockLines.
  destruct (lodText m j); [constructor|].
  constructor; [now apply lodMarker_other|].
  constructor; [reflexivity | constructor].
Qed.

Lemma scanLOD_block (m : gmap N (list N)) (k : N) (rest : list jsstring) :
  k <= 3 ->
  scanLOD (lodMarker k) (blockLines m k ++ rest) [] false
  = match lodText m k with
    | [] => scanLOD (lodMarker k) rest [] false
    | text => trim text
    end.
Proof.
  intros Hk. unfold blockLines.
  destruct (lodText m k) as [|c r]; [reflexivity|].
  destruct (lodMarker_self k (c :: r) Hk) as [S1 S2].
  cbn [app]. rewrite scanLOD_hit by exact S1. rewrite S2, trim_space.
  apply scanLOD_stop. reflexivity.
Qed.

Lemma extractLODFresh_built (timestamp : jsstring) (o : Options.t) (k : N) :
  singleLineMeta timestamp o = true ->
  singleLineLevels (lodsOption o) = true ->
  k <= 3 ->
  extractLODFresh (buildStone timestamp o) (Z.of_N k)
  = trim (lodText (lodsOption o) k).
Proof.
  intros Hm Hs Hk. unfold extractLODFresh.
  fold (lodMarker k).
  rewrite (buildStone_lines _ _ Hm).
  rewrite (stoneTail_lines _ Hs).
  rewrite scanLOD_skip_all
    by (unfold stoneHeaderLines; repeat constructor).
  assert (Hend : scanLOD (lodMarker k) [CLOSE] [] false = [])
    by reflexivity.
  destruct (level_cases k Hk) as [->|[->|[->| ->]]].
  - rewrite scanLOD_block by lia.
    destruct (lodText (lodsOption o) 0) eqn:Q; [|now rewrite trim_idem].
    rewrite !scanLOD_skip_all by (apply blockLines_other; lia).
    now rewrite Hend.
  - rewrite scanLOD_skip_all by (apply blockLines_other; lia).
    rewrite scanLOD_block by lia.
    destruct (lodText (lodsOption o) 1) eqn:Q; [|now rewrite trim_idem].
    rewrite !scanLOD_skip_all by (apply blockLines_other; lia).
    now rewrite Hend.
  - rewrite !scanLOD_skip_all by (apply blockLines_other; lia).
    rewrite scanLOD_block by lia.
    destruct (lodText (lodsOption o) 2) eqn:Q; [|now rewrite trim_idem].
    rewrite !scanLOD_skip_all by (apply blockLines_other; lia).
    now rewrite Hend.
  - rewrite !scanLOD_skip_all by (apply blockLines_other; lia).
    rewrite scanLOD_block by lia.
    destruct (lodText (lodsOption o) 3) eqn:Q; [|now rewrite trim_idem].
    now rewrite Hend.
Qed.

(** X15. The levels of a built stone are read back trimmed. For a stone
    whose levels 0 to 3, supplied or generated, hold no line feed, built
    with a time stamp and metadata on one line each, [extractLOD] at any
    of these four levels, on a cache miss, returns the text of that
    level with the white space at its ends removed, and the empty string
    for a level that was left out or empty. *)
Theorem built_levels_read_back (timestamp : jsstring) (o : Options.t)
    (k : N) (st : ParserState) :
  singleLineMeta timestamp o = true ->
  singleLineLevels (lodsOption o) = true ->
  k <= 3 ->
  lodCache st !! lodKey (buildStone timestamp o) (Z.of_N k) = None ->
  fst (extractLOD (JStr (buildStone timestamp o)) (Z.of_N k) st)
  = Normal (JStr (trim (lodText (lodsOption o) k))).
Proof.
  intros Hm Hs Hk Hmiss. unfold extractLOD, bind, extractLODStr.
  rewrite isQAStone_buildStone. cbn [negb]. rewrite Hmiss. cbn [fst ret].
  now rewrite (extractLODFresh_built _ _ k Hm Hs Hk).
Qed.

Lemma built_levels_read_back_witness :
  trim (lodText (lodsOption suppliedOptions) 2) = str "the full text"
  /\ fst (extractLOD (JStr (buildStone demoTime suppliedOptions)) (Z.of_N 2)
            newParser)
     = Normal (JStr (trim (lodText (lodsOption suppliedOptions) 2))).
Proof.
  split; [vm_compute; reflexivity|].
  apply (built_levels_read_back demoTime suppliedOptions 2 newParser);
    try (vm_compute; reflexivity).
  vm_compute. discriminate.
Defined.

(** ** The levels generated for a short sentence *)

Lemma split_runs_go_whole (sep : N -> bool) (s : jsstring) :
  forall acc,
    forallb (fun c => negb (sep c)) s = true ->
    split_runs_go sep false acc s = [rev acc ++ s].
Proof.
  induction s as [|c s IH]; intros acc H.
  - cbn [split_runs_go]. now rewrite app_nil_r.
  - cbn [forallb] in H. apply andb_true_iff in H as [Hc Hs].
    cbn [split_runs_go]. apply negb_true_iff in Hc. rewrite Hc.
    rewrite IH by exact Hs. cbn [rev]. now rewrite <- app_assoc.
Qed.

(** X16. For a content on one line, without full stop, exclamation or
    question mark, not blank and of at most 150 code units,
    [_generateLODs] gives the whole content at the levels 0, 1 and 2: the
    stone built from it carries the content three times. *)
Theorem short_sentence_levels_coincide (content : jsstring) :
  noLF content = true ->
  forallb (fun c => negb (is_stop c)) content = true ->
  notBlank content = true ->
  (length content <= 150)%nat ->
  _generateLODs content
  = <[0 := content]> (<[1 := content]> (<[2 := content]> (<[3 := []]> ∅))).
Proof.
  intros Hlf Hstop Hb Hlen. unfold _generateLODs.
  unfold split_runs, split_paras.
  rewrite split_runs_go_whole by exact Hstop.
  rewrite split_paras_go_noLF by exact Hlf.
  cbn [rev app List.filter]. rewrite Hb.
  assert (Hne : content <> []) by (intros ->; discriminate).
  destruct content as [|c r]; [congruence|].
  cbn [lookup list_lookup orElse length Nat.ltb Nat.leb andb].
  rewrite andb_false_r. rewrite !substring_0.
  now rewrite !take_ge by lia.
Qed.

Lemma short_sentence_levels_coincide_witness :
  _generateLODs oneSentence
  = <[0 := oneSentence]>
      (<[1 := oneSentence]> (<[2 := oneSentence]> (<[3 := []]> ∅))).
Proof.
  apply (short_sentence_levels_coincide oneSentence);
    [reflexivity | reflexivity | reflexivity | vm_compute; lia].
Defined.
(** ** What the task context can change *)

Lemma assess_spawnHelper (header : Header) (taskContext : TaskContext) :
  spawnHelper (assessRequiredLOD header taskContext)
  = is_str (f_complexity (parseFortune (fortune header))) "complex"
    && negb (is_str (f_complexity (parseFortune (fortune header))) "simple")
    && (lod_count header >=? 4)%Z.
Proof.
  unfold assessRequiredLOD.
  assess_cases header;
    destruct (needsFullContext taskContext), (quickAssessment taskContext);
    reflexivity.
Qed.

Lemma assess_fortune (header : Header) (taskContext : TaskContext) :
  a_fortune (assessRequiredLOD header taskContext)
  = parseFortune (fortune header).
Proof.
  unfold assessRequiredLOD.
  assess_cases header;
    destruct (needsFullContext taskContext), (quickAssessment taskContext);
    reflexivity.
Qed.

(** X17. The task context bears on the level and its reason only:
    whether a helper is spawned, the fortune and the channel of an
    assessment are the same under any two contexts. A helper is spawned
    exactly when the fortune says "complex" and the header counts four
    levels or more, in quick assessment mode too. *)
Theorem context_changes_level_only (header : Header)
    (c1 c2 : TaskContext) :
  spawnHelper (assessRequiredLOD header c1)
  = spawnHelper (assessRequiredLOD header c2)
  /\ a_fortune (assessRequiredLOD header c1)
     = a_fortune (assessRequiredLOD header c2)
  /\ channel (assessRequiredLOD header c1)
     = channel (assessRequiredLOD header c2)
  /\ (spawnHelper (assessRequiredLOD header c1) = true
      <-> is_str (f_complexity (parseFortune (fortune header))) "complex"
          = true
          /\ (4 <= lod_count header)%Z).
Proof.
  rewrite !assess_spawnHelper, !assess_fortune, !assess_channel.
  split; [reflexivity|]. split; [reflexivity|]. split; [reflexivity|].
  rewrite !andb_true_iff. split.
  - intros [[H1 _] H2]. split; [exact H1 | lia].
  - intros [H1 H2]. split; [split; [exact H1|] | lia].
    unfold is_str in *.
    destruct (f_complexity (parseFortune (fortune header))) as [v|];
      [|discriminate].
    apply str_eqb_eq in H1. subst v. reflexivity.
Qed.

(** ** A built stone loaded progressively *)

Lemma of_Z_inj (a b : Z) :
  (0 <= a)%Z -> (0 <= b)%Z -> of_Z a = of_Z b -> a = b.
Proof.
  intros Ha Hb E.
  pose proof (parseInt_of_Z a Ha) as Pa.
  pose proof (parseInt_of_Z b Hb) as Pb.
  rewrite E in Pa. congruence.
Qed.

Lemma lodKey_inj (s : jsstring) (a b : Z) :
  (0 <= a)%Z -> (0 <= b)%Z -> lodKey s a = lodKey s b -> a = b.
Proof.
  intros Ha Hb E. unfold lodKey in E.
  apply app_inv_head in E. apply app_inv_head in E.
  now apply of_Z_inj.
Qed.

(** On a cache without entry for the levels asked, the loop returns what
    the text holds. *)
Lemma extractLODsLoop_fresh (s : jsstring) (levels : list Z) :
  isQAStone (JStr s) = true ->
  NoDup levels ->
  Forall (fun k => (0 <= k)%Z) levels ->
  forall st,
    Forall (fun k => lodCache st !! lodKey s k = None) levels ->
    exists st',
      extractLODsLoop s levels st
      = (Normal (collect (extractLODFresh s) levels), st').
Proof.
  intros E. induction levels as [|k rest IH]; intros Hnd Hpos st Hmiss.
  - exists st. reflexivity.
  - apply NoDup_cons in Hnd as [Hk Hnd].
    apply Forall_cons in Hpos as [Hk0 Hpos].
    apply Forall_cons in Hmiss as [Mk Mrest].
    destruct (IH Hnd Hpos
                (mkState (<[lodKey s k := extractLODFresh s k]> (lodCache st))
                   (headerCache st))) as [st' R].
    { apply Forall_forall. intros j Hj. cbn [lodCache].
      rewrite lookup_insert_ne.
      - exact (proj1 (Forall_forall _ _) Mrest j Hj).
      - intros Q. apply lodKey_inj in Q; [|assumption|].
        + subst j. contradiction.
        + exact (proj1 (Forall_forall _ _) Hpos j Hj). }
    exists st'. cbn [extractLODsLoop]. unfold bind at 1.
    unfold extractLODStr at 1. rewrite E. cbn [negb]. rewrite Mk.
    unfold bind at 1. rewrite R. unfold ret. rewrite collect_cons.
    destruct (extractLODFresh s k); reflexivity.
Qed.

Lemma levelsUpTo_facts (n : Z) :
  NoDup (levelsUpTo n)
  /\ Forall (fun k => (0 <= k <= n)%Z) (levelsUpTo n).
Proof.
  unfold levelsUpTo. split.
  - apply NoDup_fmap_2; [intros x y; lia | apply NoDup_seq].
  - apply Forall_forall. intros k Hk.
    apply list_elem_of_fmap in Hk as (i & -> & Hi).
    apply elem_of_seq in Hi. lia.
Qed.

Lemma collect_ext (f g : Z -> jsstring) (levels : list Z) :
  Forall (fun k => f k = g k) levels -> collect f levels = collect g levels.
Proof.
  induction 1 as [|k rest Hk _ IH]; [reflexivity|].
  now rewrite !collect_cons, Hk, IH.
Qed.

Lemma parseHeader_lodCache (content : jsval) (st : ParserState) :
  lodCache (snd (parseHeader content st)) = lodCache st.
Proof.
  unfold parseHeader. destruct (negb (isQAStone content)); [reflexivity|].
  destruct content; try reflexivity.
  destruct (headerCache st !! substring 0 100 s); reflexivity.
Qed.

(** X18. A built stone loaded on a new parser. For a stone whose levels
    0 to 3, supplied or generated, hold no line feed, built with a time
    stamp and metadata on one line each, [progressiveLoad] up to a level
    from 0 to 3 on a new parser returns as [lods] the trimmed texts of
    the levels up to that one that are not blank, under their numbers,
    and as [content] these texts joined by blank lines. *)
Theorem progressiveLoad_built_stone (timestamp : jsstring) (o : Options.t)
    (maxLevel : Z) :
  singleLineMeta timestamp o = true ->
  singleLineLevels (lodsOption o) = true ->
  (0 <= maxLevel <= 3)%Z ->
  exists (r : Loaded.t) (lods : list (Z * jsstring)),
    fst (progressiveLoad (JStr (buildStone timestamp o)) maxLevel newParser)
    = Normal r
    /\ lods = collect (fun k => trim (lodText (lodsOption o) (Z.to_N k)))
                (levelsUpTo maxLevel)
    /\ Loaded.lods r = Some lods
    /\ Loaded.content r = JStr (joinValues lods)
    /\ Loaded.loadedLevel r = maxLevel
    /\ Loaded.isStone r = true.
Proof.
  intros Hm Hs Hn.
  set (s := buildStone timestamp o).
  assert (E : isQAStone (JStr s) = true) by apply isQAStone_buildStone.
  destruct (parseHeader_stone s newParser E) as (header & st1 & P).
  assert (C : lodCache st1 = ∅).
  { pose proof (parseHeader_lodCache (JStr s) newParser) as Q.
    now rewrite P in Q. }
  destruct (levelsUpTo_facts maxLevel) as [Hnd Hrange].
  destruct (extractLODsLoop_fresh s (levelsUpTo maxLevel) E Hnd
              ltac:(eapply Forall_impl; [exact Hrange | cbv beta; lia]) st1)
    as [st2 R].
  { apply Forall_forall. intros k _. now rewrite C. }
  assert (X : collect (extractLODFresh s) (levelsUpTo maxLevel)
              = collect (fun k => trim (lodText (lodsOption o) (Z.to_N k)))
                  (levelsUpTo maxLevel)).
  { apply collect_ext. eapply Forall_impl; [exact Hrange|].
    intros k Hk. cbv beta in Hk |- *.
    rewrite <- (Z2N.id k) at 1 by lia.
    apply (extractLODFresh_built _ _ _ Hm Hs). lia. }
  eexists _, _. split; [|split; [reflexivity|]].
  - unfold progressiveLoad. fold s. rewrite E. cbn [negb].
    unfold bind at 1. rewrite P.
    unfold extractLODsUpTo. unfold bind at 1. rewrite R. unfold ret.
    cbn [fst]. rewrite X, combine_collect.
    + reflexivity.
    + intros k Hk. apply existsb_exists. exists k. split; [exact Hk|].
      apply Z.eqb_refl.
  - cbn [Loaded.lods Loaded.content Loaded.loadedLevel Loaded.isStone].
    repeat split. f_equal. unfold joinValues.
    now destruct (map snd _).
Qed.

Lemma progressiveLoad_built_stone_witness :
  collect (fun k => trim (lodText (lodsOption suppliedOptions) (Z.to_N k)))
    (levelsUpTo 2)
  = [(0%Z, str "brief"); (2%Z, str "the full text")]
  /\ exists (r : Loaded.t) (lods : list (Z * jsstring)),
      fst (progressiveLoad (JStr (buildStone demoTime suppliedOptions)) 2
             newParser)
      = Normal r
      /\ lods = collect
                  (fun k => trim (lodText (lodsOption suppliedOptions)
                                    (Z.to_N k)))
                  (levelsUpTo 2)
      /\ Loaded.lods r = Some lods
      /\ Loaded.content r = JStr (joinValues lods)
      /\ Loaded.loadedLevel r = 2%Z
      /\ Loaded.isStone r = true.
Proof.
  split; [vm_compute; reflexivity|].
  apply (progressiveLoad_built_stone demoTime suppliedOptions 2);
    [vm_compute; reflexivity | vm_compute; reflexivity | lia].
Defined.
(** ** The count of levels in the header *)





(** ** The level for a channel with rules of its own, or with none *)

(** X20. For a header whose channel is not the name of a member of
    [Object.prototype], under every task context the assessed level is a
    number from 0 to 2, and it is 2 whenever the context asks for the
    full context outside quick assessment mode. *)
Theorem level_in_range (header : Header) (taskContext : TaskContext) :
  inheritedKey (channelOf header) = false ->
  exists n,
    level (assessRequiredLOD header taskContext) = Lvl n
    /\ (0 <= n <= 2)%Z
    /\ (needsFullContext taskContext = true ->
        quickAssessment taskContext = false -> n = 2%Z).
Proof.
  intros Hown. unfold assessRequiredLOD. fold (channelOf header).
  destruct (rulesDefaultLod_range _ Hown) as [d [-> Hd]].
  assess_cases header; destruct (needsFullContext taskContext),
    (quickAssessment taskContext);
    cbn -[Z.max Z.min]; eexists;
    (split; [reflexivity | split; [lia | intros; try discriminate; lia]]).
Qed.

Lemma level_in_range_witness :
  exists n,
    level (assessRequiredLOD (parseHeaderFresh demoStone)
             (mkContext true false)) = Lvl n
    /\ (0 <= n <= 2)%Z
    /\ (needsFullContext (mkContext true false) = true ->
        quickAssessment (mkContext true false) = false -> n = 2%Z).
Proof.
  apply (level_in_range (parseHeaderFresh demoStone) (mkContext true false)).
  vm_compute. reflexivity.
Defined.
